(** * Lab7 recipe page: a model of [assets/scripts/main.js]

    The page script reads a cached recipe list from [localStorage], falls back
    to six network requests, stores what it fetched, and appends one
    [<recipe-card>] per recipe to [<main>].  It also registers a service
    worker.

    Everything the script touches is browser state.  That state is gathered in
    one record, [World], and every function of the script becomes a function
    that takes a [World] and returns the next one (with a completion or a
    promise state where the script has one).  The browser itself is the
    environment: [JSON.parse] and [JSON.stringify] are section variables, the
    network is a function from URL to the way that request ends, and the order
    in which the requests finish is a list chosen by the environment. *)

From Stdlib Require Import ZArith Ascii String List Permutation Lia.
From stdpp Require Import base option list gmap strings.

Import ListNotations.
Local Open Scope string_scope.
Local Open Scope list_scope.

(** ** JavaScript values *)

(** The values the script handles: what [JSON.parse] can return, plus
    [undefined] (an unassigned [let]) and error objects (what a rejected
    promise or a [throw] carries).  Numbers are the integer-valued ones. *)
#[warnings="-register-all"]
Inductive JSValue : Type :=
| JUndefined
| JNull
| JBool (b : bool)
| JNumber (n : Z)
| JString (s : string)
| JArray (items : list JSValue)
| JObject (fields : list (string * JSValue))
| JError (name message : string).

(** Induction on values that goes through the items of an array and the
    fields of an object. *)
Section JSValue_nested_ind.

Variable P : JSValue -> Prop.
Hypothesis P_undefined : P JUndefined.
Hypothesis P_null : P JNull.
Hypothesis P_bool : forall b, P (JBool b).
Hypothesis P_number : forall n, P (JNumber n).
Hypothesis P_string : forall s, P (JString s).
Hypothesis P_array : forall items, Forall P items -> P (JArray items).
Hypothesis P_object :
  forall fields, Forall (fun kv => P (snd kv)) fields -> P (JObject fields).
Hypothesis P_error : forall name message, P (JError name message).

Fixpoint JSValue_nested_ind (v : JSValue) : P v :=
  match v with
  | JUndefined => P_undefined
  | JNull => P_null
  | JBool b => P_bool b
  | JNumber n => P_number n
  | JString s => P_string s
  | JArray items =>
      P_array items
        ((fix all (l : list JSValue) : Forall P l :=
            match l with
            | [] => @List.Forall_nil _ P
            | x :: l' => @List.Forall_cons _ P x l' (JSValue_nested_ind x) (all l')
            end) items)
  | JObject fields =>
      P_object fields
        ((fix all (l : list (string * JSValue)) : Forall (fun kv => P (snd kv)) l :=
            match l with
            | [] => @List.Forall_nil _ (fun kv => P (snd kv))
            | kv :: l' =>
                @List.Forall_cons _ (fun kv => P (snd kv)) kv l'
                  (JSValue_nested_ind (snd kv)) (all l')
            end) fields)
  | JError name message => P_error name message
  end.

End JSValue_nested_ind.

(** [ToBoolean]: what [if (v)] and [!v] test. *)
Definition truthy (v : JSValue) : bool :=
  match v with
  | JUndefined | JNull => false
  | JBool b => b
  | JNumber n => negb (n =? 0)%Z
  | JString s => negb (String.eqb s EmptyString)
  | JArray _ | JObject _ | JError _ _ => true
  end.

(** How a call ends: normally, or by throwing. *)
Inductive Completion : Type :=
| Normal
| Throw (e : JSValue).

(** The state of a promise when the event loop has run out of events. *)
Inductive PromiseState : Type :=
| Pending
| Fulfilled (v : JSValue)
| Rejected (e : JSValue).

(** ** The browser state *)

(** An element created by the script: its tag and its [data] property. *)
Record Element : Type := mkElement {
  tagName : string;
  data : JSValue
}.

(** One line of the console. *)
Inductive LogEntry : Type :=
| ConsoleLog (message : string)
| ConsoleError (e : JSValue)
| ConsoleErrorRegistration (e : JSValue).

(** The only listener the script installs on [load]: the arrow function of
    [initializeServiceWorker]. *)
Inductive Listener : Type :=
| RegisterServiceWorker.

Record World : Type := mkWorld {
  (** [localStorage]: string keys, string values *)
  localStorage : gmap string string;
  (** the URLs passed to [fetch], in call order *)
  fetched : list string;
  console : list LogEntry;
  (** ["serviceWorker" in navigator] *)
  serviceWorker_in_navigator : bool;
  (** listeners added for the window's [load] event *)
  load_listeners : list Listener;
  (** script URLs passed to [navigator.serviceWorker.register] *)
  registered : list string;
  (** the children of the first [<main>] element, [None] when the document
      has no such element ([querySelector] returns [null]) *)
  mainElement : option (list Element)
}.

Definition set_localStorage (m : gmap string string) (w : World) : World :=
  mkWorld m (fetched w) (console w) (serviceWorker_in_navigator w)
          (load_listeners w) (registered w) (mainElement w).

Definition set_fetched (l : list string) (w : World) : World :=
  mkWorld (localStorage w) l (console w) (serviceWorker_in_navigator w)
          (load_listeners w) (registered w) (mainElement w).

Definition set_console (l : list LogEntry) (w : World) : World :=
  mkWorld (localStorage w) (fetched w) l (serviceWorker_in_navigator w)
          (load_listeners w) (registered w) (mainElement w).

Definition set_load_listeners (l : list Listener) (w : World) : World :=
  mkWorld (localStorage w) (fetched w) (console w) (serviceWorker_in_navigator w)
          l (registered w) (mainElement w).

Definition set_registered (l : list string) (w : World) : World :=
  mkWorld (localStorage w) (fetched w) (console w) (serviceWorker_in_navigator w)
          (load_listeners w) l (mainElement w).

Definition set_mainElement (m : option (list Element)) (w : World) : World :=
  mkWorld (localStorage w) (fetched w) (console w) (serviceWorker_in_navigator w)
          (load_listeners w) (registered w) m.

(** Two browser states agree on what recipe loading and rendering read and
    write: the storage, the requests issued, and [<main>]. *)
Definition same_page (w1 w2 : World) : Prop :=
  localStorage w1 = localStorage w2
  /\ fetched w1 = fetched w2
  /\ mainElement w1 = mainElement w2.

(** [localStorage.getItem(key)]: the stored string, [None] for [null]. *)
Definition getItem (key : string) (w : World) : option string :=
  localStorage w !! key.

(** [localStorage.setItem(key, value)]; the storage quota is not modelled,
    so the call always succeeds. *)
Definition setItem (key value : string) (w : World) : World :=
  set_localStorage (<[key := value]> (localStorage w)) w.

(** [ToBoolean] of what [getItem] returned: [null] and the empty string are
    falsy, every other string is truthy. *)
Definition truthy_item (item : option string) : bool :=
  match item with
  | Some s => truthy (JString s)
  | None => truthy JNull
  end.

(** [ToString] of what [getItem] returned, as [JSON.parse] applies it to its
    argument. *)
Definition item_text (item : option string) : string :=
  match item with
  | Some s => s
  | None => "null"
  end.

Definition console_log (message : string) (w : World) : World :=
  set_console (console w ++ [ConsoleLog message]) w.

Definition console_error (e : JSValue) (w : World) : World :=
  set_console (console w ++ [ConsoleError e]) w.

(** [fetch(url)]: the request is issued; how it ends is the network's
    business. *)
Definition fetch (url : string) (w : World) : World :=
  set_fetched (fetched w ++ [url]) w.

(** ** The environment of a load *)

(** How the chain [fetch(url).then(body => body.json().then(..))] of one URL
    ends: [fetch] rejects, or it resolves and [body.json()] rejects, or both
    resolve and give the parsed record. *)
Inductive FetchResult : Type :=
| FetchRejected (e : JSValue)
| JsonRejected (e : JSValue)
| JsonResolved (json : JSValue).

Definition Network : Type := string -> FetchResult.

Definition succeeds (net : Network) (url : string) : bool :=
  match net url with
  | JsonResolved _ => true
  | _ => false
  end.

(** The record a URL yields ([undefined] where it yields none). *)
Definition record_of (net : Network) (url : string) : JSValue :=
  match net url with
  | JsonResolved json => json
  | _ => JUndefined
  end.

(** The error of the first request, in completion order, that fails. *)
Fixpoint first_error (net : Network) (sched : list string) : option JSValue :=
  match sched with
  | [] => None
  | url :: rest =>
      match net url with
      | FetchRejected e | JsonRejected e => Some e
      | JsonResolved _ => first_error net rest
      end
  end.

(** The errors of the requests that fail, in completion order. *)
Fixpoint errors_of (net : Network) (sched : list string) : list JSValue :=
  match sched with
  | [] => []
  | url :: rest =>
      match net url with
      | FetchRejected e | JsonRejected e => e :: errors_of net rest
      | JsonResolved _ => errors_of net rest
      end
  end.

(** The records of the requests that succeed, in completion order. *)
Definition records_of (net : Network) (sched : list string) : list JSValue :=
  map (record_of net) (List.filter (succeeds net) sched).

(** How [navigator.serviceWorker.register] ends: it rejects, or it resolves
    with a registration whose [installing], [waiting] and [active] fields are
    set or not. *)
Inductive Registration : Type :=
| RegistrationRejected (e : JSValue)
| RegistrationResolved (installing waiting active : bool).

(** ** main.js *)

Definition RECIPE_URLS : list string := [
  "https://introweb.tech/assets/json/1_50-thanksgiving-side-dishes.json";
  "https://introweb.tech/assets/json/2_roasting-turkey-breast-with-stuffing.json";
  "https://introweb.tech/assets/json/3_moms-cornbread-stuffing.json";
  "https://introweb.tech/assets/json/4_50-indulgent-thanksgiving-side-dishes-for-any-holiday-gathering.json";
  "https://introweb.tech/assets/json/5_healthy-thanksgiving-recipe-crockpot-turkey-breast.json";
  "https://introweb.tech/assets/json/6_one-pot-thanksgiving-dinner.json"
].

(** [initializeServiceWorker]: returns at once without the capability,
    otherwise adds the [load] listener. *)
Definition initializeServiceWorker (w : World) : World :=
  if negb (serviceWorker_in_navigator w) then w
  else set_load_listeners (load_listeners w ++ [RegisterServiceWorker]) w.

(** The body of the [load] listener: register [./sw.js], then log the state
    of the registration, or the failure. *)
Definition run_listener (reg : Registration) (l : Listener) (w : World) : World :=
  match l with
  | RegisterServiceWorker =>
      let w := set_registered (registered w ++ ["./sw.js"]) w in
      match reg with
      | RegistrationResolved installing waiting active =>
          if installing then console_log "Service worker installing" w
          else if waiting then console_log "Service worker installed" w
          else if active then console_log "Service worker active" w
          else w
      | RegistrationRejected e =>
          set_console (console w ++ [ConsoleErrorRegistration e]) w
      end
  end.

(** The window's [load] event: every listener runs, in the order added. *)
Definition dispatch_load (reg : Registration) (w : World) : World :=
  fold_left (fun w l => run_listener reg l w) (load_listeners w) w.

(** The variables of the promise executor in [getRecipes]: the array
    [recipes], the counter [finished], and the promise under construction. *)
Record Load : Type := mkLoad {
  recipes : list JSValue;
  finished : nat;
  promise : PromiseState
}.

(** [resolve] and [reject] settle a pending promise and do nothing to a
    settled one. *)
Definition settle (outcome : PromiseState) (p : PromiseState) : PromiseState :=
  match p with
  | Pending => outcome
  | _ => p
  end.

Section Platform.

(** [JSON.parse]: [None] when it throws. *)
Variable JSON_parse : string -> option JSValue.
(** [JSON.stringify] *)
Variable JSON_stringify : JSValue -> string.

(** [saveRecipesToStorage] *)
Definition saveRecipesToStorage (recipes : list JSValue) (w : World) : World :=
  setItem "recipes" (JSON_stringify (JArray recipes)) w.

(** The closure [err] of [getRecipes]. *)
Definition err (e : JSValue) (st : Load * World) : Load * World :=
  let (l, w) := st in
  (mkLoad (recipes l) (finished l) (settle (Rejected e) (promise l)),
   console_error e w).

(** The callback given to [body.json().then]: push, count, and on the last
    one save and resolve. *)
Definition on_json (json : JSValue) (st : Load * World) : Load * World :=
  let (l, w) := st in
  let recipes' := recipes l ++ [json] in
  let finished' := S (finished l) in
  if (length RECIPE_URLS <=? finished')%nat then
    (mkLoad recipes' finished' (settle (Fulfilled (JArray recipes')) (promise l)),
     saveRecipesToStorage recipes' w)
  else (mkLoad recipes' finished' (promise l), w).

(** The chain of one URL reaches its end: the callback it ends in runs. *)
Definition complete (net : Network) (st : Load * World) (url : string)
  : Load * World :=
  match net url with
  | FetchRejected e => err e st
  | JsonRejected e => err e st
  | JsonResolved json => on_json json st
  end.

(** The network part of [getRecipes]: the loop issues every request, then
    the chains end in the order [sched], the completion order the environment
    chose.  A chain ends at most once, so a run of the script is a [sched]
    without repetition drawn from [RECIPE_URLS]; a request that never ends is
    a URL missing from [sched].  The promise is resolved with the array
    [recipes] itself; with at most six completions nothing is pushed after
    that, so the value recorded at [resolve] is the value the caller sees. *)
Definition load_from_network (net : Network) (sched : list string) (w : World)
  : PromiseState * World :=
  let w := fold_left (fun w url => fetch url w) RECIPE_URLS w in
  let (l, w) := fold_left (complete net) sched (mkLoad [] 0 Pending, w) in
  (promise l, w).

(** [getRecipes] *)
Definition getRecipes (net : Network) (sched : list string) (w : World)
  : PromiseState * World :=
  let recipes := getItem "recipes" w in
  if truthy_item recipes then
    match JSON_parse (item_text recipes) with
    | Some parsed => (Fulfilled parsed, w)
    | None => (Fulfilled (JArray []), w)
    end
  else load_from_network net sched w.

(** The callback of [recipes.forEach] in [addRecipesToDocument]. *)
Definition append_card (recipe : JSValue) (w : World) : Completion * World :=
  let recipeCard := mkElement "recipe-card" recipe in
  match mainElement w with
  | Some children => (Normal, set_mainElement (Some (children ++ [recipeCard])) w)
  | None => (Throw (JError "TypeError" "main is null"), w)
  end.

(** [Array.prototype.forEach]: stops at the first callback that throws. *)
Fixpoint forEach (f : JSValue -> World -> Completion * World)
    (items : list JSValue) (w : World) : Completion * World :=
  match items with
  | [] => (Normal, w)
  | x :: rest =>
      match f x w with
      | (Normal, w') => forEach f rest w'
      | (Throw e, w') => (Throw e, w')
      end
  end.

(** [addRecipesToDocument] *)
Definition addRecipesToDocument (recipes : JSValue) (w : World)
  : Completion * World :=
  if negb (truthy recipes) then (Normal, w)
  else
    match recipes with
    | JArray items => forEach append_card items w
    | _ => (Throw (JError "TypeError" "recipes.forEach is not a function"), w)
    end.

(** [try { recipes = await p; } catch (err) { console.error(err); }] with
    [recipes] declared and not assigned: the value of [recipes] afterwards
    and the state, [None] while [p] is pending. *)
Definition await_or_log (p : PromiseState) (w : World) : option (JSValue * World) :=
  match p with
  | Pending => None
  | Fulfilled v => Some (v, w)
  | Rejected e => Some (JUndefined, console_error e w)
  end.

(** The promise of an async function whose body ends as [c]: fulfilled with
    [undefined] when the body falls off its end, rejected with what it
    throws. *)
Definition async_result (c : Completion * World) : PromiseState * World :=
  match c with
  | (Normal, w) => (Fulfilled JUndefined, w)
  | (Throw e, w) => (Rejected e, w)
  end.

(** [init] from its [await] on: the [try]/[catch] around the awaited promise
    [p], then [addRecipesToDocument(recipes)].  [None] while [p] is pending:
    [init] stays suspended. *)
Definition init_resume (p : PromiseState) (w : World)
  : option (PromiseState * World) :=
  match await_or_log p w with
  | None => None
  | Some (recipes, w) => Some (async_result (addRecipesToDocument recipes w))
  end.

(** [init] suspended at its [await] while the requests complete in the order
    [sched].  The continuation of an [await] runs in the microtasks of the
    callback that settles the promise, so the rest of [init] comes right
    after the completion that resolves or rejects the promise of
    [getRecipes], before the next completion; the completions after it run
    their callbacks in a page whose [init] has ended. *)
Fixpoint init_awaiting (net : Network) (sched : list string) (st : Load * World)
  : PromiseState * World :=
  match sched with
  | [] => (Pending, snd st)
  | url :: rest =>
      let st' := complete net st url in
      match init_resume (promise (fst st')) (snd st') with
      | None => init_awaiting net rest st'
      | Some (outcome, w) =>
          (outcome, snd (fold_left (complete net) rest (fst st', w)))
      end
  end.

(** [init]: the promise of the async function and the state it leaves.
    [getRecipes net []] is the call as it returns, before any request has
    completed: a settled promise on the cache path, where [init] goes on at
    once, and on the network path a pending one with the requests issued and
    the variables of the executor at their initial values. *)
Definition init (net : Network) (sched : list string) (w : World)
  : PromiseState * World :=
  let w := initializeServiceWorker w in
  let (p, w) := getRecipes net [] w in
  match init_resume p w with
  | Some ended => ended
  | None => init_awaiting net sched (mkLoad [] 0 Pending, w)
  end.

End Platform.

(** ** A reference JSON

    A printer and a parser for the values above, to run the script on
    concrete stores.  Strings are byte strings and numbers are integer
    literals; the parser refuses everything else, and the empty text with
    it. *)
Module RefJSON.

Definition dquote : ascii := ascii_of_nat 34.
Definition backslash : ascii := ascii_of_nat 92.

Definition hex_digit (n : nat) : ascii :=
  if (n <? 10)%nat then ascii_of_nat (48 + n) else ascii_of_nat (87 + n).

Definition hex_value (c : ascii) : option nat :=
  let n := nat_of_ascii c in
  if ((48 <=? n) && (n <=? 57))%nat then Some (n - 48)
  else if ((97 <=? n) && (n <=? 102))%nat then Some (n - 87)
  else if ((65 <=? n) && (n <=? 70))%nat then Some (n - 55)
  else None.

(** One character of a string literal, escaped as [JSON.stringify] does. *)
Definition escape_char (c : ascii) : string :=
  let n := nat_of_ascii c in
  if Ascii.eqb c dquote then String backslash (String dquote EmptyString)
  else if Ascii.eqb c backslash then String backslash (String backslash EmptyString)
  else if (n =? 8)%nat then String backslash "b"
  else if (n =? 9)%nat then String backslash "t"
  else if (n =? 10)%nat then String backslash "n"
  else if (n =? 12)%nat then String backslash "f"
  else if (n =? 13)%nat then String backslash "r"
  else if (n <? 32)%nat then
    String backslash
      (String "u" (String "0" (String "0"
         (String (hex_digit (n / 16)) (String (hex_digit (n mod 16)) EmptyString)))))
  else String c EmptyString.

Fixpoint escape (s : string) : string :=
  match s with
  | EmptyString => EmptyString
  | String c rest => String.append (escape_char c) (escape rest)
  end.

Definition quote (s : string) : string :=
  String dquote (String.append (escape s) (String dquote EmptyString)).

Fixpoint digits_of_pos (fuel : nat) (n : nat) (acc : string) : string :=
  match fuel with
  | O => acc
  | S fuel =>
      let acc := String (ascii_of_nat (48 + n mod 10)) acc in
      if (n <? 10)%nat then acc else digits_of_pos fuel (n / 10) acc
  end.

Definition number_text (n : Z) : string :=
  let m := Z.to_nat (Z.abs n) in
  let ds := digits_of_pos (S m) m EmptyString in
  if (n <? 0)%Z then String "-" ds else ds.

Fixpoint join (sep : string) (parts : list string) : string :=
  match parts with
  | [] => EmptyString
  | [p] => p
  | p :: rest => String.append p (String.append sep (join sep rest))
  end.

(** [JSON.stringify] of a value inside an array or an object; [undefined]
    and error objects have no JSON form and print as the script's values
    never need them to: [null] and the empty object. *)
Fixpoint stringify (v : JSValue) : string :=
  match v with
  | JUndefined | JNull => "null"
  | JBool true => "true"
  | JBool false => "false"
  | JNumber n => number_text n
  | JString s => quote s
  | JArray items => String.append "[" (String.append (join "," (map stringify items)) "]")
  | JObject fields =>
      String.append "{"
        (String.append
           (join "," (map (fun kv => String.append (quote (fst kv))
                                       (String.append ":" (stringify (snd kv))))
                          fields))
           "}")
  | JError _ _ => "{}"
  end.

Definition is_ws (c : ascii) : bool :=
  let n := nat_of_ascii c in
  ((n =? 32) || (n =? 9) || (n =? 10) || (n =? 13))%nat.

Fixpoint skip_ws (s : string) : string :=
  match s with
  | String c rest => if is_ws c then skip_ws rest else s
  | EmptyString => s
  end.

(** [s] without the prefix [lit], when it starts with it. *)
Fixpoint expect (lit s : string) : option string :=
  match lit, s with
  | EmptyString, _ => Some s
  | String a lit', String b s' => if Ascii.eqb a b then expect lit' s' else None
  | String _ _, EmptyString => None
  end.

Definition digit_value (c : ascii) : option Z :=
  let n := nat_of_ascii c in
  if ((48 <=? n) && (n <=? 57))%nat then Some (Z.of_nat (n - 48)) else None.

Definition is_digit (c : ascii) : bool :=
  match digit_value c with
  | Some _ => true
  | None => false
  end.

Fixpoint parse_digits (acc : Z) (s : string) : Z * string :=
  match s with
  | String c rest =>
      match digit_value c with
      | Some d => parse_digits (10 * acc + d) rest
      | None => (acc, s)
      end
  | EmptyString => (acc, s)
  end.

(** An integer literal without its sign: [0], or a nonzero digit and more
    digits; a fraction or an exponent after it is refused. *)
Definition parse_natural (s : string) : option (Z * string) :=
  match s with
  | String c rest =>
      match digit_value c with
      | Some d =>
          let '(n, rest') :=
            if (d =? 0)%Z then (0%Z, rest) else parse_digits d rest in
          match rest' with
          | String c' _ =>
              if Ascii.eqb c' "." || Ascii.eqb c' "e" || Ascii.eqb c' "E"
                 || is_digit c'
              then None else Some (n, rest')
          | EmptyString => Some (n, rest')
          end
      | None => None
      end
  | EmptyString => None
  end.

(** The body of a string literal, after its opening quote. *)
Fixpoint parse_chars (s : string) : option (string * string) :=
  match s with
  | EmptyString => None
  | String c rest =>
      if Ascii.eqb c dquote then Some (EmptyString, rest)
      else if Ascii.eqb c backslash then
        match rest with
        | String e rest' =>
            let simple (c' : ascii) :=
              '(body, tail) ← parse_chars rest'; Some (String c' body, tail) in
            if Ascii.eqb e dquote then simple dquote
            else if Ascii.eqb e backslash then simple backslash
            else if Ascii.eqb e "/" then simple "/"%char
            else if Ascii.eqb e "b" then simple (ascii_of_nat 8)
            else if Ascii.eqb e "t" then simple (ascii_of_nat 9)
            else if Ascii.eqb e "n" then simple (ascii_of_nat 10)
            else if Ascii.eqb e "f" then simple (ascii_of_nat 12)
            else if Ascii.eqb e "r" then simple (ascii_of_nat 13)
            else if Ascii.eqb e "u" then
              match rest' with
              | String h1 (String h2 (String h3 (String h4 rest''))) =>
                  a ← hex_value h1; b ← hex_value h2;
                  c ← hex_value h3; d ← hex_value h4;
                  if ((a =? 0) && (b =? 0))%nat then
                    '(body, tail) ← parse_chars rest'';
                    Some (String (ascii_of_nat (16 * c + d)) body, tail)
                  else None
              | _ => None
              end
            else None
        | EmptyString => None
        end
      else if (nat_of_ascii c <? 32)%nat then None
      else '(body, tail) ← parse_chars rest; Some (String c body, tail)
  end.

(** An object member read again replaces the value and keeps its place. *)
Fixpoint set_field (k : string) (v : JSValue) (fields : list (string * JSValue))
  : list (string * JSValue) :=
  match fields with
  | [] => [(k, v)]
  | (k', v') :: rest =>
      if String.eqb k k' then (k, v) :: rest else (k', v') :: set_field k v rest
  end.

Fixpoint parse_value (fuel : nat) (s : string) : option (JSValue * string) :=
  match fuel with
  | O => None
  | S fuel =>
      match skip_ws s with
      | EmptyString => None
      | String c rest =>
          if Ascii.eqb c "n" then rest' ← expect "ull" rest; Some (JNull, rest')
          else if Ascii.eqb c "t" then rest' ← expect "rue" rest; Some (JBool true, rest')
          else if Ascii.eqb c "f" then rest' ← expect "alse" rest; Some (JBool false, rest')
          else if Ascii.eqb c dquote then
            '(str, rest') ← parse_chars rest; Some (JString str, rest')
          else if Ascii.eqb c "[" then
            match skip_ws rest with
            | EmptyString => None
            | String c' rest' =>
                if Ascii.eqb c' "]" then Some (JArray [], rest')
                else parse_elements fuel rest []
            end
          else if Ascii.eqb c "{" then
            match skip_ws rest with
            | EmptyString => None
            | String c' rest' =>
                if Ascii.eqb c' "}" then Some (JObject [], rest')
                else parse_members fuel rest []
            end
          else if Ascii.eqb c "-" then
            '(n, rest') ← parse_natural rest; Some (JNumber (- n), rest')
          else
            '(n, rest') ← parse_natural (String c rest); Some (JNumber n, rest')
      end
  end
with parse_elements (fuel : nat) (s : string) (acc : list JSValue)
  : option (JSValue * string) :=
  match fuel with
  | O => None
  | S fuel =>
      '(v, rest) ← parse_value fuel s;
      match skip_ws rest with
      | EmptyString => None
      | String c rest' =>
          if Ascii.eqb c "," then parse_elements fuel rest' (acc ++ [v])
          else if Ascii.eqb c "]" then Some (JArray (acc ++ [v]), rest')
          else None
      end
  end
with parse_members (fuel : nat) (s : string) (acc : list (string * JSValue))
  : option (JSValue * string) :=
  match fuel with
  | O => None
  | S fuel =>
      match skip_ws s with
      | EmptyString => None
      | String c rest =>
          if Ascii.eqb c dquote then
            '(k, rest) ← parse_chars rest;
            match skip_ws rest with
            | EmptyString => None
            | String c' rest =>
                if Ascii.eqb c' ":" then
                  '(v, rest) ← parse_value fuel rest;
                  match skip_ws rest with
                  | EmptyString => None
                  | String c'' rest' =>
                      if Ascii.eqb c'' "," then parse_members fuel rest' (set_field k v acc)
                      else if Ascii.eqb c'' "}" then Some (JObject (set_field k v acc), rest')
                      else None
                  end
                else None
            end
          else None
      end
  end.

(** The text of one object member. *)
Definition member_text (kv : string * JSValue) : string :=
  String.append (quote (fst kv)) (String.append ":" (stringify (snd kv))).

(** The values that have a JSON text of their own: no [undefined], no error
    object, no object with a key twice. *)
Fixpoint is_json (v : JSValue) : bool :=
  match v with
  | JUndefined | JError _ _ => false
  | JNull | JBool _ | JNumber _ | JString _ => true
  | JArray items => forallb is_json items
  | JObject fields =>
      forallb (fun kv => is_json (snd kv)) fields
      && bool_decide (NoDup (map fst fields))
  end.

(** What can follow a value inside a text: nothing, a comma, or a closing
    bracket. *)
Definition value_end (rest : string) : bool :=
  match rest with
  | EmptyString => true
  | String c _ => Ascii.eqb c "," || Ascii.eqb c "]" || Ascii.eqb c "}"
  end.

(** [v] is read back from its text: by [parse_value] with enough fuel for
    the text, whatever closes the value after it. *)
Definition round_trips (v : JSValue) : Prop :=
  is_json v = true ->
  forall fuel rest,
    2 * String.length (stringify v) < fuel ->
    value_end rest = true ->
    parse_value fuel (String.append (stringify v) rest) = Some (v, rest).

(** [JSON.parse]: one value, blanks around it, nothing else. *)
Definition parse (s : string) : option JSValue :=
  '(v, rest) ← parse_value (2 * String.length s + 2) s;
  match skip_ws rest with
  | EmptyString => Some v
  | String _ _ => None
  end.

End RefJSON.

(** ** Sample pages and networks *)

(** A freshly opened page: empty storage, an empty [<main>], a browser with
    service workers. *)
Definition fresh_page : World :=
  mkWorld ∅ [] [] true [] [] (Some []).

(** The same page in a browser without service workers. *)
Definition legacy_page : World :=
  mkWorld ∅ [] [] false [] [] (Some []).

Definition dish (n : string) : JSValue :=
  JObject [("name", JString (String.append "Dish " n))].

Definition failed_to_fetch : JSValue := JError "TypeError" "Failed to fetch".

(** The record each source serves: [{"name": "Dish N"}] for the N-th URL. *)
Definition dish_at (url : string) : JSValue :=
  match list_find (String.eqb url) RECIPE_URLS with
  | Some (i, _) => dish (RefJSON.number_text (Z.of_nat (S i)))
  | None => JUndefined
  end.

(** Every source answers. *)
Definition six_dishes : Network :=
  fun url => JsonResolved (dish_at url).

Definition third_url : string :=
  "https://introweb.tech/assets/json/3_moms-cornbread-stuffing.json".

(** Every source answers but the third, whose request fails. *)
Definition third_down : Network :=
  fun url =>
    if String.eqb url third_url
    then FetchRejected failed_to_fetch
    else JsonResolved (dish_at url).

Definition fifth_url : string :=
  "https://introweb.tech/assets/json/5_healthy-thanksgiving-recipe-crockpot-turkey-breast.json".

Definition unexpected_token : JSValue := JError "SyntaxError" "Unexpected token".

(** The third source is down and the fifth answers with something that is
    no JSON. *)
Definition two_down : Network :=
  fun url =>
    if String.eqb url third_url then FetchRejected failed_to_fetch
    else if String.eqb url fifth_url then JsonRejected unexpected_token
    else JsonResolved (dish_at url).

(** A completion order: the sources finish as 3, 1, 6, 2, 5, 4. *)
Definition shuffled : list string :=
  omap (fun i => RECIPE_URLS !! i) [2; 0; 5; 1; 4; 3]%nat.

(** The first four completions of that order: two requests are still out. *)
Definition stalled : list string := take 4 shuffled.

(** A page whose document has no [<main>]. *)
Definition no_main_page : World :=
  mkWorld ∅ [] [] true [] [] None.

(** A page that keeps a setting of its own in the storage. *)
Definition page_with_theme : World :=
  setItem "theme" "dark" fresh_page.

(** A page whose storage holds [text] under ["recipes"]. *)
Definition page_with_cache (text : string) : World :=
  setItem "recipes" text fresh_page.

(** The text of a two-recipe collection, as [saveRecipesToStorage] writes
    it. *)
Definition two_dishes : list JSValue := [dish "1"; dish "2"].

Definition two_dishes_text : string := RefJSON.stringify (JArray two_dishes).

(** ** Facts about the browser state *)

Lemma set_fetched_same (w : World) : set_fetched (fetched w) w = w.
Proof. by destruct w. Qed.

Lemma set_console_same (w : World) : set_console (console w) w = w.
Proof. by destruct w. Qed.

Lemma getItem_setItem (key value : string) (w : World) :
  getItem key (setItem key value w) = Some value.
Proof. unfold getItem, setItem. simpl. apply lookup_insert_eq. Qed.

Lemma truthy_item_Some (s : string) :
  truthy_item (Some s) = negb (String.eqb s EmptyString).
Proof. reflexivity. Qed.

Lemma truthy_item_nonempty (s : string) :
  s <> EmptyString -> truthy_item (Some s) = true.
Proof.
  intros Hs. rewrite truthy_item_Some.
  destruct (String.eqb_spec s EmptyString); [contradiction | reflexivity].
Qed.

Lemma settle_Rejected_twice (e e' : JSValue) (p : PromiseState) :
  settle (Rejected e') (settle (Rejected e) p) = settle (Rejected e) p.
Proof. by destruct p. Qed.

Lemma initializeServiceWorker_fields (w : World) :
  localStorage (initializeServiceWorker w) = localStorage w
  /\ fetched (initializeServiceWorker w) = fetched w
  /\ console (initializeServiceWorker w) = console w
  /\ mainElement (initializeServiceWorker w) = mainElement w.
Proof. unfold initializeServiceWorker. by destruct (negb _). Qed.

(** The loop of [getRecipes] issues its requests in the order of the list. *)
Lemma fetch_each (urls : list string) (w : World) :
  fold_left (fun w url => fetch url w) urls w = set_fetched (fetched w ++ urls) w.
Proof.
  revert w. induction urls as [|url urls IH]; intros w; simpl.
  - rewrite app_nil_r. symmetry. apply set_fetched_same.
  - rewrite IH. destruct w. unfold fetch, set_fetched. simpl.
    by rewrite <- app_assoc.
Qed.

Section CachePath.

Variable JSON_parse : string -> option JSValue.
Variable JSON_stringify : JSValue -> string.

(** [JSON.parse("")] throws: the empty text is no JSON. *)
Hypothesis JSON_parse_empty : JSON_parse EmptyString = None.

(** A stored text that parses is not empty, so [if (recipes)] takes it. *)
Lemma parsed_text_truthy (s : string) (v : JSValue) :
  JSON_parse s = Some v -> truthy_item (Some s) = true.
Proof using JSON_parse_empty.
  intros Hs. apply truthy_item_nonempty. intros ->. congruence.
Qed.

Lemma getRecipes_cached (net : Network) (sched : list string) (w : World)
    (s : string) (v : JSValue) :
  getItem "recipes" w = Some s ->
  JSON_parse s = Some v ->
  getRecipes JSON_parse JSON_stringify net sched w = (Fulfilled v, w).
Proof using JSON_parse_empty.
  intros Hitem Hs. unfold getRecipes.
  rewrite Hitem, (parsed_text_truthy s v Hs). simpl. by rewrite Hs.
Qed.

(** C1. Cache hit: when the store holds under ["recipes"] a text [s] that
    deserializes to the collection [C], [getRecipes] resolves with exactly
    [C] and changes nothing in the browser: no URL is passed to [fetch]. *)
Theorem getRecipes_cache_hit (net : Network) (sched : list string) (w : World)
    (s : string) (C : list JSValue) :
  getItem "recipes" w = Some s ->
  JSON_parse s = Some (JArray C) ->
  getRecipes JSON_parse JSON_stringify net sched w = (Fulfilled (JArray C), w)
  /\ fetched (snd (getRecipes JSON_parse JSON_stringify net sched w)) = fetched w.
Proof using JSON_parse_empty.
  intros Hitem Hs.
  rewrite (getRecipes_cached net sched w s (JArray C) Hitem Hs). by split.
Qed.

(** C4, amended. Corrupt cache: when the store holds under ["recipes"] a
    text that is not empty and that [JSON.parse] refuses, [getRecipes]
    resolves with the empty collection and changes nothing in the browser:
    no URL is passed to [fetch]. *)
Theorem getRecipes_corrupt_cache (net : Network) (sched : list string) (w : World)
    (s : string) :
  getItem "recipes" w = Some s ->
  s <> EmptyString ->
  JSON_parse s = None ->
  getRecipes JSON_parse JSON_stringify net sched w = (Fulfilled (JArray []), w)
  /\ fetched (snd (getRecipes JSON_parse JSON_stringify net sched w)) = fetched w.
Proof.
  intros Hitem Hne Hs. unfold getRecipes.
  rewrite Hitem, (truthy_item_nonempty s Hne). simpl. by rewrite Hs.
Qed.

(** C10. Round trip: when the serialization of the array [r] parses back
    to [r], [getRecipes] after [saveRecipesToStorage r] resolves with [r]
    and passes no URL to [fetch]. *)
Theorem saveRecipesToStorage_getRecipes (net : Network) (sched : list string)
    (w : World) (r : list JSValue) :
  JSON_parse (JSON_stringify (JArray r)) = Some (JArray r) ->
  getRecipes JSON_parse JSON_stringify net sched (saveRecipesToStorage JSON_stringify r w)
    = (Fulfilled (JArray r), saveRecipesToStorage JSON_stringify r w)
  /\ fetched (snd (getRecipes JSON_parse JSON_stringify net sched (saveRecipesToStorage JSON_stringify r w)))
     = fetched (saveRecipesToStorage JSON_stringify r w).
Proof using JSON_parse_empty.
  intros Hround.
  assert (Hget : getRecipes JSON_parse JSON_stringify net sched (saveRecipesToStorage JSON_stringify r w)
                 = (Fulfilled (JArray r), saveRecipesToStorage JSON_stringify r w)).
  { apply getRecipes_cached with (s := JSON_stringify (JArray r)); [|done].
    apply getItem_setItem. }
  by rewrite Hget.
Qed.

End CachePath.


(** ** The network path *)

Lemma first_error_of_failure (net : Network) (sched : list string) (url : string) :
  In url sched -> succeeds net url = false ->
  exists e, first_error net sched = Some e.
Proof.
  unfold succeeds. induction sched as [|u rest IH]; simpl; [done|].
  intros [->|Hin] Hfail.
  - destruct (net url); eauto. discriminate.
  - destruct (net u); eauto.
Qed.

Lemma first_error_all_succeed (net : Network) (sched : list string) :
  Forall (fun url => succeeds net url = true) sched ->
  first_error net sched = None /\ errors_of net sched = []
  /\ List.filter (succeeds net) sched = sched.
Proof.
  unfold succeeds. induction 1 as [|url rest Hurl _ (IH1 & IH2 & IH3)]; simpl; [done|].
  destruct (net url); try discriminate. by rewrite IH3.
Qed.

(** A failed request is missing from the successes. *)
Lemma successes_lt (net : Network) (sched : list string) (url : string) :
  In url sched -> succeeds net url = false ->
  length (List.filter (succeeds net) sched) < length sched.
Proof.
  induction sched as [|u rest IH]; simpl; [done|].
  intros [->|Hin] Hfail.
  - rewrite Hfail. pose proof (List.filter_length_le (succeeds net) rest). lia.
  - specialize (IH Hin Hfail). destruct (succeeds net u); simpl; lia.
Qed.

Lemma successes_prefix (net : Network) (pre post : list string) :
  length (List.filter (succeeds net) pre)
  <= length (List.filter (succeeds net) (pre ++ post)).
Proof. rewrite List.filter_app, length_app. lia. Qed.

Section NetworkPath.

Variable JSON_parse : string -> option JSValue.
Variable JSON_stringify : JSValue -> string.
Variable net : Network.

Lemma complete_failure (url : string) (e : JSValue) (st : Load * World) :
  net url = FetchRejected e \/ net url = JsonRejected e ->
  complete JSON_stringify net st url = err e st
  /\ succeeds net url = false.
Proof. unfold complete, succeeds. by intros [-> | ->]. Qed.

Lemma complete_success (url : string) (json : JSValue) (st : Load * World) :
  net url = JsonResolved json ->
  complete JSON_stringify net st url = on_json JSON_stringify json st
  /\ succeeds net url = true /\ record_of net url = json.
Proof. unfold complete, succeeds, record_of. by intros ->. Qed.

Lemma on_json_below (json : JSValue) (l : Load) (w : World) :
  S (finished l) < length RECIPE_URLS ->
  on_json JSON_stringify json (l, w)
  = (mkLoad (recipes l ++ [json]) (S (finished l)) (promise l), w).
Proof.
  intros Hlt. unfold on_json.
  by destruct (Nat.leb_spec (length RECIPE_URLS) (S (finished l))); [lia|].
Qed.

Lemma on_json_last (json : JSValue) (l : Load) (w : World) :
  length RECIPE_URLS <= S (finished l) ->
  on_json JSON_stringify json (l, w)
  = (mkLoad (recipes l ++ [json]) (S (finished l))
            (settle (Fulfilled (JArray (recipes l ++ [json]))) (promise l)),
     saveRecipesToStorage JSON_stringify (recipes l ++ [json]) w).
Proof.
  intros Hle. unfold on_json.
  by destruct (Nat.leb_spec (length RECIPE_URLS) (S (finished l))); [|lia].
Qed.

Lemma err_then_log (e : JSValue) (es : list JSValue) (w : World) :
  set_console (console (console_error e w) ++ map ConsoleError es) (console_error e w)
  = set_console (console w ++ map ConsoleError (e :: es)) w.
Proof. destruct w. unfold set_console, console_error. simpl. by rewrite <- app_assoc. Qed.

(** While fewer than six requests have succeeded the callbacks only collect
    records and log errors: the promise is rejected by the first failure and
    by nothing else, and the storage is not written. *)
Lemma complete_below (sched : list string) (l : Load) (w : World) :
  finished l + length (List.filter (succeeds net) sched) < length RECIPE_URLS ->
  fold_left (complete JSON_stringify net) sched (l, w)
  = (mkLoad (recipes l ++ records_of net sched)
            (finished l + length (List.filter (succeeds net) sched))
            (match first_error net sched with
             | Some e => settle (Rejected e) (promise l)
             | None => promise l
             end),
     set_console (console w ++ map ConsoleError (errors_of net sched)) w).
Proof.
  revert l w. unfold records_of.
  induction sched as [|url rest IH]; intros l w Hlt;
    cbn [fold_left List.filter first_error errors_of].
  - cbn [map length]. rewrite !app_nil_r, Nat.add_0_r, set_console_same.
    by destruct l.
  - cbn [List.filter] in Hlt.
    assert (Hfail : forall e,
      net url = FetchRejected e \/ net url = JsonRejected e ->
      fold_left (complete JSON_stringify net) rest
        (complete JSON_stringify net (l, w) url)
      = (mkLoad
           (recipes l ++ map (record_of net) (List.filter (succeeds net) rest))
           (finished l + length (List.filter (succeeds net) rest))
           (settle (Rejected e) (promise l)),
         set_console
           (console w ++ map ConsoleError (e :: errors_of net rest)) w)).
    { intros e He. destruct (complete_failure url e (l, w) He) as [-> Hsucc].
      rewrite Hsucc in Hlt. unfold err. rewrite IH by done.
      cbn [recipes finished promise]. rewrite err_then_log. do 2 f_equal.
      destruct (first_error net rest); [|done]. apply settle_Rejected_twice. }
    destruct (net url) as [e|e|json] eqn:Hurl.
    + rewrite (Hfail e) by auto.
      by destruct (complete_failure url e (l, w)) as [_ ->]; auto.
    + rewrite (Hfail e) by auto.
      by destruct (complete_failure url e (l, w)) as [_ ->]; auto.
    + destruct (complete_success url json (l, w) Hurl) as (-> & Hsucc & Hrec).
      rewrite Hsucc in *. cbn [map length] in *. rewrite Hrec.
      rewrite on_json_below by lia. rewrite IH by (cbn [finished]; lia).
      cbn [recipes finished promise]. rewrite <- app_assoc.
      do 2 f_equal. lia.
Qed.

(** When all six succeed, the sixth callback saves and resolves. *)
Lemma complete_all (sched : list string) (w : World) :
  length sched = length RECIPE_URLS ->
  Forall (fun url => succeeds net url = true) sched ->
  fold_left (complete JSON_stringify net) sched (mkLoad [] 0 Pending, w)
  = (mkLoad (map (record_of net) sched) (length sched)
            (Fulfilled (JArray (map (record_of net) sched))),
     saveRecipesToStorage JSON_stringify (map (record_of net) sched) w).
Proof.
  intros Hlen Hall.
  destruct (rev sched) as [|last front] eqn:Hrev.
  { apply (f_equal (@length _)) in Hrev. rewrite length_rev, Hlen in Hrev.
    discriminate. }
  apply (f_equal (@rev _)) in Hrev. rewrite rev_involutive in Hrev.
  cbn [rev] in Hrev. subst sched. set (front' := rev front) in *.
  rewrite length_app in Hlen. cbn [length] in Hlen.
  apply Forall_app in Hall as [Hfront Hlast].
  apply Forall_inv in Hlast.
  destruct (first_error_all_succeed net _ Hfront) as (Hfirst & Herrs & Hfilter).
  rewrite fold_left_app, complete_below
    by (cbn [finished]; rewrite Hfilter; lia).
  unfold records_of. rewrite Hfirst, Herrs, Hfilter.
  cbn [fold_left recipes finished promise map].
  rewrite app_nil_r, set_console_same.
  destruct (net last) as [e|e|json] eqn:Hlast';
    try (unfold succeeds in Hlast; rewrite Hlast' in Hlast; discriminate).
  destruct (complete_success last json
              (mkLoad ([] ++ map (record_of net) front') (0 + length front') Pending, w)
              Hlast') as (-> & _ & Hrec).
  rewrite on_json_last by (cbn [finished]; lia).
  cbn [recipes finished promise settle app].
  rewrite map_app, length_app. cbn [map length]. rewrite Hrec.
  do 2 f_equal. lia.
Qed.

(** What the network path leaves untouched, whatever the requests do. *)
Lemma complete_frame (sched : list string) (st : Load * World) :
  let w' := snd (fold_left (complete JSON_stringify net) sched st) in
  fetched w' = fetched (snd st)
  /\ mainElement w' = mainElement (snd st)
  /\ serviceWorker_in_navigator w' = serviceWorker_in_navigator (snd st)
  /\ load_listeners w' = load_listeners (snd st)
  /\ registered w' = registered (snd st).
Proof.
  revert st. induction sched as [|url rest IH]; intros st; simpl; [done|].
  destruct (IH (complete JSON_stringify net st url)) as (-> & -> & -> & -> & ->).
  destruct st as [l w]. unfold complete, err, on_json.
  destruct (net url); [done | done |].
  by destruct (length RECIPE_URLS <=? S (finished l))%nat.
Qed.

Lemma load_from_network_fetched (sched : list string) (w : World) :
  fetched (snd (load_from_network JSON_stringify net sched w))
  = fetched w ++ RECIPE_URLS.
Proof.
  unfold load_from_network. rewrite fetch_each.
  pose proof (complete_frame sched
    (mkLoad [] 0 Pending, set_fetched (fetched w ++ RECIPE_URLS) w)) as (Hf & _).
  destruct (fold_left _ sched _) as [l w']. simpl in *. by rewrite Hf.
Qed.

Lemma getRecipes_miss (sched : list string) (w : World) :
  truthy_item (getItem "recipes" w) = false ->
  getRecipes JSON_parse JSON_stringify net sched w
  = load_from_network JSON_stringify net sched w.
Proof. intros Hmiss. unfold getRecipes. by rewrite Hmiss. Qed.

(** C9. Empty string: when the store holds the empty string under
    ["recipes"], [getRecipes] takes the network path: the six URLs are passed
    to [fetch], in the order of [RECIPE_URLS]. *)
Theorem getRecipes_empty_string_is_miss (sched : list string) (w : World) :
  getItem "recipes" w = Some EmptyString ->
  getRecipes JSON_parse JSON_stringify net sched w
  = load_from_network JSON_stringify net sched w
  /\ fetched (snd (getRecipes JSON_parse JSON_stringify net sched w))
     = fetched w ++ RECIPE_URLS.
Proof.
  intros Hitem.
  assert (Hmiss : truthy_item (getItem "recipes" w) = false) by by rewrite Hitem.
  rewrite (getRecipes_miss sched w Hmiss). split; [done|].
  apply load_from_network_fetched.
Qed.

Lemma load_from_network_below (sched : list string) (w : World) :
  length (List.filter (succeeds net) sched) < length RECIPE_URLS ->
  load_from_network JSON_stringify net sched w
  = (match first_error net sched with
     | Some e => Rejected e
     | None => Pending
     end,
     set_console (console w ++ map ConsoleError (errors_of net sched))
                 (set_fetched (fetched w ++ RECIPE_URLS) w)).
Proof.
  intros Hlt. unfold load_from_network.
  rewrite fetch_each, complete_below by done. cbn [promise settle].
  by destruct (first_error net sched).
Qed.

Lemma load_from_network_all (sched : list string) (w : World) :
  length sched = length RECIPE_URLS ->
  Forall (fun url => succeeds net url = true) sched ->
  load_from_network JSON_stringify net sched w
  = (Fulfilled (JArray (map (record_of net) sched)),
     saveRecipesToStorage JSON_stringify (map (record_of net) sched)
       (set_fetched (fetched w ++ RECIPE_URLS) w)).
Proof.
  intros Hlen Hall. unfold load_from_network.
  by rewrite fetch_each, complete_all.
Qed.

(** [getRecipes] leaves the document and the service worker alone. *)
Lemma getRecipes_frame (sched : list string) (w : World) :
  let w' := snd (getRecipes JSON_parse JSON_stringify net sched w) in
  mainElement w' = mainElement w
  /\ serviceWorker_in_navigator w' = serviceWorker_in_navigator w
  /\ load_listeners w' = load_listeners w
  /\ registered w' = registered w.
Proof.
  unfold getRecipes. destruct (truthy_item _).
  - by destruct (JSON_parse _).
  - unfold load_from_network. rewrite fetch_each.
    pose proof (complete_frame sched
      (mkLoad [] 0 Pending, set_fetched (fetched w ++ RECIPE_URLS) w))
      as (_ & Hm & Hs & Hl & Hr).
    by destruct (fold_left _ sched _) as [l w'].
Qed.

(** C2. All or nothing: starting with no ["recipes"] key, in every run in
    which requests complete, each at most once and in any order, and one of
    those that complete fails (its [fetch] or its [json()] rejects),
    [getRecipes] rejects, with the error of the first failure, and the key is
    absent afterwards; the storage is the initial one after every prefix of
    the completions, so no partial collection is ever written.  The runs in
    which all six complete, in an order that is a permutation of
    [RECIPE_URLS], are among them. *)
Theorem getRecipes_all_or_nothing (sched : list string) (w : World) (url : string) :
  getItem "recipes" w = None ->
  NoDup sched ->
  incl sched RECIPE_URLS ->
  In url sched ->
  succeeds net url = false ->
  exists e,
    first_error net sched = Some e
    /\ fst (getRecipes JSON_parse JSON_stringify net sched w) = Rejected e
    /\ getItem "recipes" (snd (getRecipes JSON_parse JSON_stringify net sched w)) = None
    /\ forall pre post, sched = pre ++ post ->
         localStorage (snd (getRecipes JSON_parse JSON_stringify net pre w))
         = localStorage w.
Proof.
  intros Hitem Hnodup Hincl Hin Hfail.
  assert (Hmiss : truthy_item (getItem "recipes" w) = false) by by rewrite Hitem.
  assert (Hlt : length (List.filter (succeeds net) sched) < length RECIPE_URLS).
  { pose proof (NoDup_incl_length (proj1 (NoDup_ListNoDup sched) Hnodup) Hincl).
    pose proof (successes_lt net sched url Hin Hfail). lia. }
  destruct (first_error_of_failure net sched url Hin Hfail) as [e He].
  assert (Hprefix : forall pre post, sched = pre ++ post ->
            localStorage (snd (getRecipes JSON_parse JSON_stringify net pre w))
            = localStorage w).
  { intros pre post ->. rewrite getRecipes_miss by done.
    rewrite load_from_network_below; [done|].
    pose proof (successes_prefix net pre post). lia. }
  exists e. split; [done|]. split; [|split; [|done]].
  - rewrite getRecipes_miss, load_from_network_below by done. by rewrite He.
  - unfold getItem at 1. rewrite (Hprefix sched []) by by rewrite app_nil_r.
    exact Hitem.
Qed.

(** A miss on which all six requests succeed: the records are collected in
    completion order, saved, and the promise resolves with them. *)
Lemma getRecipes_miss_all_succeed (r : string -> JSValue) (sched : list string)
    (w : World) :
  getItem "recipes" w = None ->
  Permutation sched RECIPE_URLS ->
  (forall url, In url RECIPE_URLS -> net url = JsonResolved (r url)) ->
  getRecipes JSON_parse JSON_stringify net sched w
  = (Fulfilled (JArray (map r sched)),
     saveRecipesToStorage JSON_stringify (map r sched)
       (set_fetched (fetched w ++ RECIPE_URLS) w)).
Proof.
  intros Hitem Hperm Hnet.
  assert (Hmiss : truthy_item (getItem "recipes" w) = false) by by rewrite Hitem.
  assert (Hall : Forall (fun url => succeeds net url = true) sched).
  { apply List.Forall_forall. intros url Hin. unfold succeeds.
    rewrite (Hnet url); [done|]. by eapply Permutation_in. }
  assert (Hrec : map (record_of net) sched = map r sched).
  { apply map_ext_in. intros url Hin. unfold record_of.
    rewrite (Hnet url); [done|]. by eapply Permutation_in. }
  rewrite getRecipes_miss by done.
  rewrite load_from_network_all, Hrec; [done | | done].
  apply Permutation_length, Hperm.
Qed.

(** [JSON.parse("")] throws: the empty text is no JSON. *)
Hypothesis JSON_parse_empty : JSON_parse EmptyString = None.

(** C3. Cache miss populates the cache: starting with no ["recipes"] key,
    when the six requests complete in the order [sched] and every one
    succeeds, the URL [u] with the parsed record [r u], and the serialization
    of the collected records parses back to them, then [getRecipes] resolves
    with the records in completion order, a permutation of the six; the
    store then holds under ["recipes"] a text that deserializes to that
    collection; the six URLs were passed to [fetch]; and every later
    [getRecipes], whatever the network does, resolves with that same
    collection and leaves the browser as it is, passing no URL to [fetch]. *)
Theorem getRecipes_miss_populates (r : string -> JSValue) (sched : list string)
    (w : World) :
  getItem "recipes" w = None ->
  Permutation sched RECIPE_URLS ->
  (forall url, In url RECIPE_URLS -> net url = JsonResolved (r url)) ->
  JSON_parse (JSON_stringify (JArray (map r sched))) = Some (JArray (map r sched)) ->
  let C := map r sched in
  let w' := snd (getRecipes JSON_parse JSON_stringify net sched w) in
  fst (getRecipes JSON_parse JSON_stringify net sched w) = Fulfilled (JArray C)
  /\ Permutation C (map r RECIPE_URLS)
  /\ (exists s, getItem "recipes" w' = Some s /\ JSON_parse s = Some (JArray C))
  /\ fetched w' = fetched w ++ RECIPE_URLS
  /\ forall net' sched',
       getRecipes JSON_parse JSON_stringify net' sched' w' = (Fulfilled (JArray C), w')
       /\ fetched (snd (getRecipes JSON_parse JSON_stringify net' sched' w'))
          = fetched w'.
Proof using JSON_parse_empty.
  intros Hitem Hperm Hnet Hround C w'.
  subst w'. rewrite (getRecipes_miss_all_succeed r sched w Hitem Hperm Hnet).
  cbn [fst snd]. fold C.
  assert (Hstored : getItem "recipes"
            (saveRecipesToStorage JSON_stringify C
               (set_fetched (fetched w ++ RECIPE_URLS) w))
          = Some (JSON_stringify (JArray C))) by apply getItem_setItem.
  split; [done|]. split; [by apply Permutation_map|].
  split; [by eauto|]. split; [done|].
  intros net' sched'.
  by rewrite (getRecipes_cached JSON_parse JSON_stringify JSON_parse_empty
                net' sched' _ _ _ Hstored Hround).
Qed.

(** A settled promise is not settled again. *)
Lemma complete_settled (sched : list string) (st : Load * World) :
  promise (fst st) <> Pending ->
  promise (fst (fold_left (complete JSON_stringify net) sched st)) = promise (fst st).
Proof.
  revert st. induction sched as [|url rest IH]; intros [l w] Hp; [done|].
  cbn [fold_left].
  assert (Hstep : promise (fst (complete JSON_stringify net (l, w) url)) = promise l).
  { unfold complete, err, on_json. cbn [fst] in Hp.
    destruct (net url); [by destruct (promise l) | by destruct (promise l) |].
    destruct (length RECIPE_URLS <=? S (finished l))%nat; [|done].
    by destruct (promise l). }
  rewrite IH; [done|]. by rewrite Hstep.
Qed.

(** Every failure is logged once, in completion order, and nothing else is. *)
Lemma complete_console (sched : list string) (st : Load * World) :
  console (snd (fold_left (complete JSON_stringify net) sched st))
  = console (snd st) ++ map ConsoleError (errors_of net sched).
Proof.
  revert st. induction sched as [|url rest IH]; intros [l w];
    cbn [fold_left errors_of]; [by rewrite app_nil_r|].
  rewrite IH. unfold complete, err, on_json.
  destruct (net url) as [e|e|json]; cbn [snd map].
  - unfold console_error. cbn. by rewrite <- app_assoc.
  - unfold console_error. cbn. by rewrite <- app_assoc.
  - by destruct (length RECIPE_URLS <=? S (finished l))%nat.
Qed.

Lemma load_from_network_fold (sched : list string) (w : World) :
  load_from_network JSON_stringify net sched w
  = (promise (fst (fold_left (complete JSON_stringify net) sched
                     (mkLoad [] 0 Pending, set_fetched (fetched w ++ RECIPE_URLS) w))),
     snd (fold_left (complete JSON_stringify net) sched
            (mkLoad [] 0 Pending, set_fetched (fetched w ++ RECIPE_URLS) w))).
Proof.
  unfold load_from_network. rewrite fetch_each.
  by destruct (fold_left _ sched _).
Qed.

(** On a miss [init] is suspended with the six requests issued. *)
Lemma init_miss (sched : list string) (w : World) :
  truthy_item (getItem "recipes" w) = false ->
  init JSON_parse JSON_stringify net sched w
  = init_awaiting JSON_stringify net sched
      (mkLoad [] 0 Pending,
       set_fetched (fetched (initializeServiceWorker w) ++ RECIPE_URLS)
         (initializeServiceWorker w)).
Proof.
  intros Hmiss. unfold init.
  assert (Hmiss' : truthy_item (getItem "recipes" (initializeServiceWorker w)) = false).
  { unfold getItem in *.
    by destruct (initializeServiceWorker_fields w) as (-> & _). }
  rewrite getRecipes_miss, load_from_network_fold by done. reflexivity.
Qed.

(** On a hit [init] goes on at once with what [getRecipes] returns. *)
Lemma init_hit (sched : list string) (w : World) :
  truthy_item (getItem "recipes" w) = true ->
  Some (init JSON_parse JSON_stringify net sched w)
  = init_resume
      (fst (getRecipes JSON_parse JSON_stringify net sched (initializeServiceWorker w)))
      (snd (getRecipes JSON_parse JSON_stringify net sched (initializeServiceWorker w))).
Proof.
  intros Hhit. unfold init, getRecipes.
  assert (Hhit' : truthy_item (getItem "recipes" (initializeServiceWorker w)) = true).
  { unfold getItem in *.
    by destruct (initializeServiceWorker_fields w) as (-> & _). }
  rewrite Hhit'.
  destruct (JSON_parse (item_text _));
    cbn [fst snd init_resume await_or_log]; reflexivity.
Qed.

(** While the promise is pending [init] stays suspended. *)
Lemma init_awaiting_app (pre post : list string) (st : Load * World) :
  promise (fst (fold_left (complete JSON_stringify net) pre st)) = Pending ->
  init_awaiting JSON_stringify net (pre ++ post) st
  = init_awaiting JSON_stringify net post
      (fold_left (complete JSON_stringify net) pre st).
Proof.
  revert st. induction pre as [|url pre IH]; intros st Hpending; [done|].
  cbn [app fold_left init_awaiting] in *. cbn zeta.
  destruct (promise (fst (complete JSON_stringify net st url))) eqn:Hstep.
  - cbn [init_resume await_or_log]. by apply IH.
  - rewrite complete_settled in Hpending by by rewrite Hstep. congruence.
  - rewrite complete_settled in Hpending by by rewrite Hstep. congruence.
Qed.

(** When the completion that settles the promise of [getRecipes] is the last
    one, or none settles it, [init] is [getRecipes] over the whole schedule
    followed by the rest of [init]. *)
Lemma init_settled_last (sched : list string) (w : World) :
  (truthy_item (getItem "recipes" w) = false ->
   fst (getRecipes JSON_parse JSON_stringify net (removelast sched)
          (initializeServiceWorker w)) = Pending) ->
  init JSON_parse JSON_stringify net sched w
  = match init_resume
            (fst (getRecipes JSON_parse JSON_stringify net sched
                    (initializeServiceWorker w)))
            (snd (getRecipes JSON_parse JSON_stringify net sched
                    (initializeServiceWorker w))) with
    | Some ended => ended
    | None =>
        (Pending,
         snd (getRecipes JSON_parse JSON_stringify net sched
                (initializeServiceWorker w)))
    end.
Proof.
  intros Hlast.
  destruct (truthy_item (getItem "recipes" w)) eqn:Hitem.
  { by rewrite <- init_hit. }
  specialize (Hlast eq_refl).
  assert (Hmiss : truthy_item (getItem "recipes" (initializeServiceWorker w)) = false).
  { unfold getItem in *.
    by destruct (initializeServiceWorker_fields w) as (-> & _). }
  rewrite init_miss by done.
  rewrite getRecipes_miss, load_from_network_fold in Hlast |- * by done.
  cbn [fst snd] in *.
  destruct sched as [|first others]; [reflexivity|].
  destruct (exists_last (l := first :: others)) as (pre & url & Heq); [done|].
  rewrite Heq in Hlast |- *. clear Heq first others.
  rewrite removelast_last in Hlast.
  rewrite init_awaiting_app by done. rewrite fold_left_app.
  cbn [fold_left init_awaiting]. cbn zeta.
  by destruct (init_resume _ _) as [[outcome w']|].
Qed.

(** A failure while [init] is suspended: [err] logs and rejects, [init]
    resumes, logs the error again, renders nothing and ends; the remaining
    completions follow. *)
Lemma init_awaiting_failure (url : string) (rest : list string) (l : Load)
    (w : World) (e : JSValue) :
  net url = FetchRejected e \/ net url = JsonRejected e ->
  promise l = Pending ->
  init_awaiting JSON_stringify net (url :: rest) (l, w)
  = (Fulfilled JUndefined,
     snd (fold_left (complete JSON_stringify net) rest
            (mkLoad (recipes l) (finished l) (Rejected e),
             console_error e (console_error e w)))).
Proof.
  intros Hurl Hpending. cbn [init_awaiting]. cbn zeta.
  destruct (complete_failure url e (l, w) Hurl) as [-> _].
  unfold err. by rewrite Hpending.
Qed.

(** A success short of the sixth while [init] is suspended: it stays so. *)
Lemma init_awaiting_success (url : string) (rest : list string) (l : Load)
    (w : World) (json : JSValue) :
  net url = JsonResolved json ->
  promise l = Pending ->
  S (finished l) < length RECIPE_URLS ->
  init_awaiting JSON_stringify net (url :: rest) (l, w)
  = init_awaiting JSON_stringify net rest
      (mkLoad (recipes l ++ [json]) (S (finished l)) Pending, w).
Proof.
  intros Hurl Hpending Hlt. cbn [init_awaiting]. cbn zeta.
  destruct (complete_success url json (l, w) Hurl) as (-> & _).
  rewrite on_json_below by done. by rewrite Hpending.
Qed.

(** A load that ends rejected: [init] resumed right after the first failure,
    logged its error a second time, rendered nothing and ended normally; the
    failures after it were logged after that. *)
Lemma init_awaiting_rejected (sched : list string) (l : Load) (w : World)
    (e : JSValue) :
  promise l = Pending ->
  promise (fst (fold_left (complete JSON_stringify net) sched (l, w))) = Rejected e ->
  exists later,
    errors_of net sched = e :: later
    /\ fst (init_awaiting JSON_stringify net sched (l, w)) = Fulfilled JUndefined
    /\ console (snd (init_awaiting JSON_stringify net sched (l, w)))
       = console w ++ ConsoleError e :: ConsoleError e :: map ConsoleError later
    /\ mainElement (snd (init_awaiting JSON_stringify net sched (l, w)))
       = mainElement w.
Proof.
  revert l w. induction sched as [|url rest IH]; intros l w Hpending Hrejected.
  { cbn in Hrejected. congruence. }
  cbn [fold_left errors_of] in *.
  assert (Hfail : forall e0,
    net url = FetchRejected e0 \/ net url = JsonRejected e0 ->
    exists later,
      e0 :: errors_of net rest = e :: later
      /\ fst (init_awaiting JSON_stringify net (url :: rest) (l, w))
         = Fulfilled JUndefined
      /\ console (snd (init_awaiting JSON_stringify net (url :: rest) (l, w)))
         = console w ++ ConsoleError e :: ConsoleError e :: map ConsoleError later
      /\ mainElement (snd (init_awaiting JSON_stringify net (url :: rest) (l, w)))
         = mainElement w).
  { intros e0 He0.
    destruct (complete_failure url e0 (l, w) He0) as [Hstep _].
    rewrite Hstep in Hrejected. unfold err in Hrejected.
    rewrite Hpending in Hrejected. cbn [settle] in Hrejected.
    rewrite complete_settled in Hrejected by done. cbn [fst promise] in Hrejected.
    injection Hrejected as ->.
    rewrite init_awaiting_failure with (e := e) by done. cbn [fst snd].
    exists (errors_of net rest). split; [done|]. split; [done|].
    rewrite complete_console.
    pose proof (complete_frame rest
      (mkLoad (recipes l) (finished l) (Rejected e),
       console_error e (console_error e w))) as (_ & Hm & _).
    cbn zeta in Hm. rewrite Hm. cbn [snd]. split; [|by destruct w].
    destruct w. unfold console_error, set_console. cbn.
    by rewrite <- !app_assoc. }
  destruct (net url) as [e0|e0|json] eqn:Hurl.
  - apply (Hfail e0). by left.
  - apply (Hfail e0). by right.
  - destruct (complete_success url json (l, w) Hurl) as (Hstep & _).
    rewrite Hstep in Hrejected.
    destruct (Nat.leb_spec (length RECIPE_URLS) (S (finished l))) as [Hge|Hlt].
    + rewrite on_json_last in Hrejected by done.
      rewrite complete_settled in Hrejected
        by (cbn [fst promise]; rewrite Hpending; discriminate).
      cbn [fst promise] in Hrejected. rewrite Hpending in Hrejected. discriminate.
    + rewrite on_json_below in Hrejected by lia.
      rewrite init_awaiting_success with (json := json) by done.
      rewrite Hpending in Hrejected. by apply IH.
Qed.

(** C5. Failure containment: when [getRecipes] rejects with [e], [init]
    catches it and ends normally.  The rest of [init] after a rejection logs
    [e] and calls the renderer with [undefined], which does nothing; so [e],
    the error of the first failure, is on the console twice, once from
    [getRecipes] and once from [init], before the errors of the failures that
    come later, and [<main>] is as it was when the page loaded. *)
Theorem init_contains_failure (sched : list string) (w : World) (e : JSValue) :
  fst (getRecipes JSON_parse JSON_stringify net sched (initializeServiceWorker w))
  = Rejected e ->
  fst (init JSON_parse JSON_stringify net sched w) = Fulfilled JUndefined
  /\ mainElement (snd (init JSON_parse JSON_stringify net sched w)) = mainElement w
  /\ (exists later,
        errors_of net sched = e :: later
        /\ console (snd (init JSON_parse JSON_stringify net sched w))
           = console w ++ ConsoleError e :: ConsoleError e :: map ConsoleError later)
  /\ forall w1,
       init_resume (Rejected e) w1 = Some (Fulfilled JUndefined, console_error e w1)
       /\ addRecipesToDocument JUndefined (console_error e w1)
          = (Normal, console_error e w1).
Proof.
  intros Hget.
  destruct (initializeServiceWorker_fields w) as (Hs & Hf & Hc & Hm).
  destruct (truthy_item (getItem "recipes" w)) eqn:Hitem.
  { exfalso. revert Hget. unfold getRecipes, getItem in *. rewrite Hs, Hitem.
    by destruct (JSON_parse (item_text _)). }
  assert (Hmiss : truthy_item (getItem "recipes" (initializeServiceWorker w)) = false).
  { unfold getItem in *. by rewrite Hs. }
  rewrite getRecipes_miss, load_from_network_fold in Hget by done.
  cbn [fst] in Hget.
  destruct (init_awaiting_rejected sched (mkLoad [] 0 Pending) _ e eq_refl Hget)
    as (later & Herrs & Hp & Hcon & Hmain).
  rewrite init_miss by done. split; [done|]. split.
  { rewrite Hmain. cbn. exact Hm. }
  split; [|done].
  exists later. split; [done|]. rewrite Hcon. cbn. by rewrite Hc.
Qed.

End NetworkPath.


(** ** Rendering *)

Lemma forEach_append_card (items : list JSValue) (children : list Element) (w : World) :
  mainElement w = Some children ->
  forEach append_card items w
  = (Normal,
     set_mainElement (Some (children ++ map (mkElement "recipe-card") items)) w).
Proof.
  revert children w. induction items as [|recipe rest IH]; intros children w Hmain.
  - cbn [forEach map]. rewrite app_nil_r. rewrite <- Hmain. destruct w. reflexivity.
  - cbn [forEach]. unfold append_card at 1. rewrite Hmain.
    rewrite (IH (children ++ [mkElement "recipe-card" recipe])) by done.
    cbn [map]. rewrite <- app_assoc. destruct w. reflexivity.
Qed.

(** C6. Render order: with [children] the content of [<main>],
    [addRecipesToDocument] on an array ends normally and leaves in [<main>]
    the old children followed by one [recipe-card] per recipe, in the order
    of the array, the i-th new element carrying the i-th recipe as its data:
    an array of length n appends exactly n elements. *)
Theorem addRecipesToDocument_appends (items : list JSValue)
    (children : list Element) (w : World) :
  mainElement w = Some children ->
  let new := map (mkElement "recipe-card") items in
  addRecipesToDocument (JArray items) w
  = (Normal, set_mainElement (Some (children ++ new)) w)
  /\ length new = length items
  /\ forall i recipe, items !! i = Some recipe ->
       (children ++ new) !! (length children + i)
       = Some (mkElement "recipe-card" recipe)
       /\ data <$> new !! i = Some recipe.
Proof.
  intros Hmain new. split; [|split].
  - unfold addRecipesToDocument. cbn [truthy negb]. by apply forEach_append_card.
  - apply length_map.
  - intros i recipe Hi. subst new.
    rewrite lookup_app_r, Nat.add_comm, Nat.add_sub by lia.
    by rewrite list_lookup_fmap, Hi.
Qed.

(** [addRecipesToDocument] returns at once on every falsy value. *)
Lemma addRecipesToDocument_falsy (recipes : JSValue) (w : World) :
  truthy recipes = false -> addRecipesToDocument recipes w = (Normal, w).
Proof. intros Hf. unfold addRecipesToDocument. by rewrite Hf. Qed.

(** C7. Render nothing: [addRecipesToDocument] called with [undefined] or
    with [null] ends normally and leaves the browser state, and with it the
    children of [<main>], as it was. *)
Theorem addRecipesToDocument_nothing (w : World) :
  addRecipesToDocument JUndefined w = (Normal, w)
  /\ addRecipesToDocument JNull w = (Normal, w)
  /\ mainElement (snd (addRecipesToDocument JUndefined w)) = mainElement w
  /\ mainElement (snd (addRecipesToDocument JNull w)) = mainElement w.
Proof. by rewrite !addRecipesToDocument_falsy. Qed.


(** ** The service worker registrar *)

Lemma same_page_refl (w : World) : same_page w w.
Proof. by repeat split. Qed.

Lemma same_page_trans (w1 w2 w3 : World) :
  same_page w1 w2 -> same_page w2 w3 -> same_page w1 w3.
Proof. unfold same_page. intros (? & ? & ?) (? & ? & ?). repeat split; congruence. Qed.

(** A setter applied on both sides keeps the agreement. *)
Ltac same_page_fields :=
  let Hs := fresh in let Hf := fresh in let Hm := fresh in
  intros (Hs & Hf & Hm); repeat split; cbn; congruence.

Lemma same_page_set_console (l1 l2 : list LogEntry) (w1 w2 : World) :
  same_page w1 w2 -> same_page (set_console l1 w1) (set_console l2 w2).
Proof. same_page_fields. Qed.

Lemma same_page_setItem (key value : string) (w1 w2 : World) :
  same_page w1 w2 -> same_page (setItem key value w1) (setItem key value w2).
Proof. same_page_fields. Qed.

Lemma same_page_set_fetched (l : list string) (w1 w2 : World) :
  same_page w1 w2 -> same_page (set_fetched l w1) (set_fetched l w2).
Proof. same_page_fields. Qed.

Lemma same_page_set_mainElement (m : option (list Element)) (w1 w2 : World) :
  same_page w1 w2 -> same_page (set_mainElement m w1) (set_mainElement m w2).
Proof. same_page_fields. Qed.

Lemma initializeServiceWorker_same_page (w : World) :
  same_page (initializeServiceWorker w) w.
Proof. unfold initializeServiceWorker. by destruct (negb _). Qed.

Lemma run_listener_same_page (reg : Registration) (l : Listener) (w : World) :
  same_page (run_listener reg l w) w.
Proof.
  destruct l, reg as [e|installing waiting active]; [done|].
  by destruct installing, waiting, active.
Qed.

Lemma dispatch_load_same_page (reg : Registration) (w : World) :
  same_page (dispatch_load reg w) w.
Proof.
  unfold dispatch_load. generalize (load_listeners w) as ls.
  intros ls. generalize (same_page_refl w). generalize w at 1 3 as w0.
  induction ls as [|l ls IH]; intros w0 Hw0; [done|].
  cbn [fold_left]. apply IH.
  eapply same_page_trans; [apply run_listener_same_page | done].
Qed.

Section Decoupling.

Variable JSON_parse : string -> option JSValue.
Variable JSON_stringify : JSValue -> string.
Variable net : Network.

Lemma complete_same_page (sched : list string) (l : Load) (w1 w2 : World) :
  same_page w1 w2 ->
  fst (fold_left (complete JSON_stringify net) sched (l, w1))
  = fst (fold_left (complete JSON_stringify net) sched (l, w2))
  /\ same_page (snd (fold_left (complete JSON_stringify net) sched (l, w1)))
               (snd (fold_left (complete JSON_stringify net) sched (l, w2))).
Proof.
  revert l w1 w2. induction sched as [|url rest IH]; intros l w1 w2 Hsame; [done|].
  cbn [fold_left]. unfold complete at 2 4 6 8, err, on_json.
  destruct (net url) as [e|e|json].
  - by apply IH, same_page_set_console.
  - by apply IH, same_page_set_console.
  - destruct (length RECIPE_URLS <=? S (finished l))%nat; [|by apply IH].
    by apply IH, same_page_setItem.
Qed.

(** [getRecipes] reads and writes the page part of the state only. *)
Lemma getRecipes_same_page (sched : list string) (w1 w2 : World) :
  same_page w1 w2 ->
  fst (getRecipes JSON_parse JSON_stringify net sched w1)
  = fst (getRecipes JSON_parse JSON_stringify net sched w2)
  /\ same_page (snd (getRecipes JSON_parse JSON_stringify net sched w1))
               (snd (getRecipes JSON_parse JSON_stringify net sched w2)).
Proof.
  intros Hsame. unfold getRecipes, getItem.
  destruct Hsame as (Hs & Hf & Hm). rewrite Hs.
  destruct (truthy_item _).
  - by destruct (JSON_parse _).
  - unfold load_from_network. rewrite !fetch_each, Hf.
    pose proof (complete_same_page sched (mkLoad [] 0 Pending)
      (set_fetched (fetched w2 ++ RECIPE_URLS) w1)
      (set_fetched (fetched w2 ++ RECIPE_URLS) w2)
      (same_page_set_fetched _ w1 w2 (conj Hs (conj Hf Hm)))) as Hrun.
    destruct (fold_left _ sched (_, set_fetched _ w1)) as [l1 w1'].
    destruct (fold_left _ sched (_, set_fetched _ w2)) as [l2 w2'].
    cbn [fst snd] in *. by destruct Hrun as [-> Hsame'].
Qed.

Lemma forEach_same_page (items : list JSValue) (w1 w2 : World) :
  same_page w1 w2 ->
  fst (forEach append_card items w1) = fst (forEach append_card items w2)
  /\ same_page (snd (forEach append_card items w1))
               (snd (forEach append_card items w2)).
Proof.
  revert w1 w2. induction items as [|recipe rest IH]; intros w1 w2 Hsame; [done|].
  cbn [forEach]. unfold append_card at 1 3 5 7.
  destruct Hsame as (Hs & Hf & Hm). rewrite Hm.
  destruct (mainElement w2) eqn:Hm2.
  - apply IH, same_page_set_mainElement. repeat split; congruence.
  - repeat split; cbn; congruence.
Qed.

(** [addRecipesToDocument] reads and writes the page part of the state only. *)
Lemma addRecipesToDocument_same_page (recipes : JSValue) (w1 w2 : World) :
  same_page w1 w2 ->
  fst (addRecipesToDocument recipes w1) = fst (addRecipesToDocument recipes w2)
  /\ same_page (snd (addRecipesToDocument recipes w1))
               (snd (addRecipesToDocument recipes w2)).
Proof.
  intros Hsame. unfold addRecipesToDocument.
  destruct (negb (truthy recipes)); [done|].
  destruct recipes; try done. by apply forEach_same_page.
Qed.

Lemma init_resume_same_page (p : PromiseState) (v1 v2 : World) :
  same_page v1 v2 ->
  match init_resume p v1, init_resume p v2 with
  | Some r1, Some r2 => fst r1 = fst r2 /\ same_page (snd r1) (snd r2)
  | None, None => True
  | _, _ => False
  end.
Proof.
  intros Hv.
  assert (Hrender : forall recipes u1 u2, same_page u1 u2 ->
    fst (async_result (addRecipesToDocument recipes u1))
    = fst (async_result (addRecipesToDocument recipes u2))
    /\ same_page (snd (async_result (addRecipesToDocument recipes u1)))
                 (snd (async_result (addRecipesToDocument recipes u2)))).
  { intros recipes u1 u2 Hu.
    destruct (addRecipesToDocument_same_page recipes u1 u2 Hu) as [Hc Hu'].
    destruct (addRecipesToDocument recipes u1) as [c1 u1'].
    destruct (addRecipesToDocument recipes u2) as [c2 u2'].
    cbn [fst snd] in *. subst c2. destruct c1; (split; [reflexivity | exact Hu']). }
  destruct p as [|recipes|e]; cbn [init_resume await_or_log]; [done | |].
  - by apply Hrender.
  - by apply Hrender, same_page_set_console.
Qed.

Lemma init_awaiting_same_page (sched : list string) (l : Load) (w1 w2 : World) :
  same_page w1 w2 ->
  fst (init_awaiting JSON_stringify net sched (l, w1))
  = fst (init_awaiting JSON_stringify net sched (l, w2))
  /\ same_page (snd (init_awaiting JSON_stringify net sched (l, w1)))
               (snd (init_awaiting JSON_stringify net sched (l, w2))).
Proof.
  revert l w1 w2. induction sched as [|url rest IH]; intros l w1 w2 Hsame; [done|].
  cbn [init_awaiting]. cbn zeta.
  destruct (complete_same_page [url] l w1 w2 Hsame) as [Hl Hw].
  cbn [fold_left] in Hl, Hw.
  destruct (complete JSON_stringify net (l, w1) url) as [l1 v1].
  destruct (complete JSON_stringify net (l, w2) url) as [l2 v2].
  cbn [fst snd] in *. subst l2.
  pose proof (init_resume_same_page (promise l1) v1 v2 Hw) as Hresume.
  destruct (init_resume (promise l1) v1) as [[q1 u1]|],
           (init_resume (promise l1) v2) as [[q2 u2]|]; try done.
  - cbn [fst snd] in *. destruct Hresume as [-> Hu]. split; [done|].
    by apply complete_same_page.
  - by apply IH.
Qed.

(** [init] gives the same promise and the same page whatever the service
    worker part of the state is. *)
Lemma init_same_page (sched : list string) (w1 w2 : World) :
  same_page w1 w2 ->
  fst (init JSON_parse JSON_stringify net sched w1)
  = fst (init JSON_parse JSON_stringify net sched w2)
  /\ same_page (snd (init JSON_parse JSON_stringify net sched w1))
               (snd (init JSON_parse JSON_stringify net sched w2)).
Proof.
  intros Hsame. unfold init.
  assert (Hsw : same_page (initializeServiceWorker w1) (initializeServiceWorker w2)).
  { eapply same_page_trans; [apply initializeServiceWorker_same_page|].
    eapply same_page_trans; [exact Hsame|].
    destruct (initializeServiceWorker_same_page w2) as (? & ? & ?).
    repeat split; congruence. }
  destruct (getRecipes_same_page [] _ _ Hsw) as [Hp Hw].
  destruct (getRecipes _ _ _ [] (initializeServiceWorker w1)) as [p1 w1'].
  destruct (getRecipes _ _ _ [] (initializeServiceWorker w2)) as [p2 w2'].
  cbn [fst snd] in *. subst p2.
  pose proof (init_resume_same_page p1 w1' w2' Hw) as Hresume.
  destruct (init_resume p1 w1') as [r1|], (init_resume p1 w2') as [r2|]; try done.
  by apply init_awaiting_same_page.
Qed.

End Decoupling.

(** C8. Registrar guard: without the [serviceWorker] capability,
    [initializeServiceWorker] changes nothing: no [load] listener is added, no
    script is registered, and on a page with no other listener the [load]
    event does nothing.  With or without the capability, before or after the
    [load] event and however the registration ends, the storage, the requests
    and [<main>] are what they were, and [getRecipes], [addRecipesToDocument]
    and [init] give the same result and the same page as they do on any state
    with that storage, those requests and that [<main>]. *)
Theorem initializeServiceWorker_guard (w : World) :
  (serviceWorker_in_navigator w = false ->
     initializeServiceWorker w = w
     /\ load_listeners (initializeServiceWorker w) = load_listeners w
     /\ registered (initializeServiceWorker w) = registered w
     /\ (load_listeners w = [] ->
         forall reg, dispatch_load reg (initializeServiceWorker w) = w))
  /\ same_page (initializeServiceWorker w) w
  /\ (forall reg, same_page (dispatch_load reg (initializeServiceWorker w)) w)
  /\ forall JSON_parse JSON_stringify net sched (w1 w2 : World),
       same_page w1 w2 ->
       (fst (getRecipes JSON_parse JSON_stringify net sched w1)
        = fst (getRecipes JSON_parse JSON_stringify net sched w2)
        /\ same_page (snd (getRecipes JSON_parse JSON_stringify net sched w1))
                     (snd (getRecipes JSON_parse JSON_stringify net sched w2)))
       /\ (forall recipes,
             fst (addRecipesToDocument recipes w1)
             = fst (addRecipesToDocument recipes w2)
             /\ same_page (snd (addRecipesToDocument recipes w1))
                          (snd (addRecipesToDocument recipes w2)))
       /\ (fst (init JSON_parse JSON_stringify net sched w1)
           = fst (init JSON_parse JSON_stringify net sched w2)
           /\ same_page (snd (init JSON_parse JSON_stringify net sched w1))
                        (snd (init JSON_parse JSON_stringify net sched w2))).
Proof.
  split; [|split; [|split]].
  - intros Hno. unfold initializeServiceWorker. rewrite Hno. cbn [negb].
    repeat split. intros Hnone reg. unfold dispatch_load. by rewrite Hnone.
  - apply initializeServiceWorker_same_page.
  - intros reg. eapply same_page_trans; [apply dispatch_load_same_page|].
    apply initializeServiceWorker_same_page.
  - intros JSON_parse JSON_stringify net sched w1 w2 Hsame. split; [|split].
    + by apply getRecipes_same_page.
    + intros recipes. by apply addRecipesToDocument_same_page.
    + by apply init_same_page.
Qed.


(** ** The reference JSON reads back what it prints *)

Module RefJSONFacts.
Import RefJSON.

Lemma append_String (x : ascii) (a b : string) :
  String.append (String x a) b = String x (String.append a b).
Proof. reflexivity. Qed.

Lemma append_EmptyString (b : string) : String.append EmptyString b = b.
Proof. reflexivity. Qed.

Lemma append_assoc (a b c : string) :
  String.append (String.append a b) c = String.append a (String.append b c).
Proof.
  induction a as [|x a IH]; [reflexivity|].
  rewrite !append_String. f_equal. exact IH.
Qed.

Lemma length_append (a b : string) :
  String.length (String.append a b) = String.length a + String.length b.
Proof.
  induction a as [|x a IH]; [reflexivity|].
  rewrite append_String. cbn [String.length]. rewrite IH. reflexivity.
Qed.

(** *** Strings *)

Lemma parse_chars_escape_char (c : ascii) (t : string) :
  parse_chars (String.append (escape_char c) t)
  = '(body, tail) ← parse_chars t; Some (String c body, tail).
Proof.
  destruct c as [[] [] [] [] [] [] [] []]; reflexivity.
Qed.

Lemma parse_chars_quote (s rest : string) :
  parse_chars (String.append (escape s) (String dquote rest)) = Some (s, rest).
Proof.
  induction s as [|c s IH]; [reflexivity|].
  cbn [escape]. rewrite append_assoc, parse_chars_escape_char, IH. reflexivity.
Qed.

(** *** Numbers *)

Lemma value_end_inv (rest : string) :
  value_end rest = true ->
  rest = EmptyString
  \/ exists c t, rest = String c t /\ (c = "," \/ c = "]" \/ c = "}")%char.
Proof.
  destruct rest as [|c t]; [by left|]. cbn [value_end]. intros H. right.
  exists c, t. split; [done|].
  destruct (Ascii.eqb_spec c ","); [by left|].
  destruct (Ascii.eqb_spec c "]"); [by right; left|].
  destruct (Ascii.eqb_spec c "}"); [by right; right|]. discriminate.
Qed.

Lemma skip_ws_value_end (rest : string) :
  value_end rest = true -> skip_ws rest = rest.
Proof.
  intros H. destruct (value_end_inv rest H) as [->|(c & t & -> & [->|[->| ->]])];
    reflexivity.
Qed.

Lemma parse_digits_value_end (a : Z) (rest : string) :
  value_end rest = true -> parse_digits a rest = (a, rest).
Proof.
  intros H. destruct (value_end_inv rest H) as [->|(c & t & -> & [->|[->| ->]])];
    reflexivity.
Qed.

Lemma digit_value_digit (d : nat) :
  d < 10 -> digit_value (ascii_of_nat (48 + d)) = Some (Z.of_nat d).
Proof. do 10 (destruct d as [|d]; [reflexivity|]). lia. Qed.

Lemma parse_digits_digit (a : Z) (d : nat) (s : string) :
  d < 10 ->
  parse_digits a (String (ascii_of_nat (48 + d)) s)
  = parse_digits (10 * a + Z.of_nat d) s.
Proof. intros Hd. cbn [parse_digits]. by rewrite digit_value_digit. Qed.

Lemma digits_of_pos_append (fuel n : nat) (s rest : string) :
  String.append (digits_of_pos fuel n s) rest
  = digits_of_pos fuel n (String.append s rest).
Proof.
  revert n s. induction fuel as [|fuel IH]; intros n s; [reflexivity|].
  cbn [digits_of_pos]. destruct (n <? 10)%nat; [reflexivity|].
  rewrite IH. reflexivity.
Qed.

Lemma digits_of_pos_head (fuel n : nat) (s : string) :
  n < fuel ->
  exists d t,
    d < 10
    /\ digits_of_pos fuel n s = String (ascii_of_nat (48 + d)) t
    /\ (d = 0 -> n = 0 /\ t = s)
    /\ parse_digits (Z.of_nat d) t = parse_digits (Z.of_nat n) s.
Proof.
  revert n s. induction fuel as [|fuel IH]; intros n s Hn; [lia|].
  cbn [digits_of_pos]. destruct (Nat.ltb_spec n 10) as [Hlt|Hge].
  - exists n, s. rewrite Nat.mod_small by done. repeat split; done.
  - destruct (IH (n / 10) (String (ascii_of_nat (48 + n mod 10)) s))
      as (d & t & Hd & -> & Hzero & Hparse).
    { pose proof (Nat.div_lt n 10). lia. }
    exists d, t. split; [done|]. split; [done|]. split.
    + intros ->. destruct Hzero as [Hz _]; [done|].
      pose proof (Nat.div_str_pos n 10). lia.
    + rewrite Hparse, parse_digits_digit by (apply Nat.mod_upper_bound; lia).
      f_equal. pose proof (Nat.div_mod_eq n 10). lia.
Qed.

Lemma parse_natural_digits (fuel n : nat) (rest : string) :
  n < fuel -> value_end rest = true ->
  parse_natural (digits_of_pos fuel n rest) = Some (Z.of_nat n, rest).
Proof.
  intros Hn Hrest.
  destruct (digits_of_pos_head fuel n rest Hn) as (d & t & Hd & -> & Hzero & Hparse).
  unfold parse_natural. rewrite digit_value_digit by done.
  assert (Hcheck : forall m : Z,
    match rest with
    | String c' _ =>
        if Ascii.eqb c' "." || Ascii.eqb c' "e" || Ascii.eqb c' "E" || is_digit c'
        then None else Some (m, rest)
    | EmptyString => Some (m, rest)
    end = Some (m, rest)).
  { intros m.
    destruct (value_end_inv rest Hrest) as [->|(c & t' & -> & [->|[->| ->]])];
      reflexivity. }
  destruct d as [|d].
  - destruct Hzero as [-> ->]; [done|]. cbn. apply Hcheck.
  - destruct (Z.eqb_spec (Z.of_nat (S d)) 0) as [?|_]; [lia|].
    rewrite Hparse, parse_digits_value_end by done. apply Hcheck.
Qed.

Lemma parse_value_digit (fuel d : nat) (t : string) :
  d < 10 ->
  parse_value (S fuel) (String (ascii_of_nat (48 + d)) t)
  = '(n, rest') ← parse_natural (String (ascii_of_nat (48 + d)) t);
    Some (JNumber n, rest').
Proof. do 10 (destruct d as [|d]; [reflexivity|]). lia. Qed.

Lemma parse_value_number (fuel : nat) (n : Z) (rest : string) :
  value_end rest = true ->
  parse_value (S fuel) (String.append (number_text n) rest) = Some (JNumber n, rest).
Proof.
  intros Hrest. unfold number_text.
  set (m := Z.to_nat (Z.abs n)).
  destruct (Z.ltb_spec n 0) as [Hneg|Hpos].
  - rewrite append_String, digits_of_pos_append, append_EmptyString.
    change (parse_value (S fuel) (String "-" (digits_of_pos (S m) m rest)))
      with ('(n, rest') ← parse_natural (digits_of_pos (S m) m rest);
            Some (JNumber (- n), rest')).
    rewrite parse_natural_digits by (done || lia). cbn. do 3 f_equal. subst m. lia.
  - rewrite digits_of_pos_append, append_EmptyString.
    destruct (digits_of_pos_head (S m) m rest) as (d & t & Hd & Heq & _); [lia|].
    rewrite Heq, parse_value_digit by done. rewrite <- Heq.
    rewrite parse_natural_digits by (done || lia). cbn. do 3 f_equal. subst m. lia.
Qed.


(** *** Values *)

(** The text of a JSON value starts with a character that is neither a blank
    nor a closing bracket. *)
Lemma stringify_head (v : JSValue) :
  is_json v = true ->
  exists c t, stringify v = String c t /\ is_ws c = false /\ Ascii.eqb c "]" = false.
Proof.
  destruct v as [| |[]|n|s|items|fields|]; try discriminate; intros _;
    try (eexists _, _; split; [reflexivity|]; split; reflexivity).
  cbn [stringify]. unfold number_text.
  destruct (n <? 0)%Z; [eexists _, _; split; [reflexivity|]; split; reflexivity|].
  destruct (digits_of_pos_head (S (Z.to_nat (Z.abs n))) (Z.to_nat (Z.abs n)) EmptyString)
    as (d & t & Hd & -> & _); [lia|].
  exists (ascii_of_nat (48 + d)), t. split; [reflexivity|].
  do 10 (destruct d as [|d]; [split; reflexivity|]). lia.
Qed.

Lemma join_head (sep : string) (p : string) (parts : list string) (c : ascii) (t : string) :
  p = String c t -> exists t', join sep (p :: parts) = String c t'.
Proof.
  intros ->. destruct parts as [|q parts]; [by exists t|].
  cbn [join]. rewrite append_String. by eexists.
Qed.

Lemma join_cons (sep p q : string) (parts : list string) :
  join sep (p :: q :: parts)
  = String.append p (String.append sep (join sep (q :: parts))).
Proof. reflexivity. Qed.

Lemma parse_elements_S (fuel : nat) (s : string) (acc : list JSValue) :
  parse_elements (S fuel) s acc
  = '(v, rest) ← parse_value fuel s;
    match skip_ws rest with
    | EmptyString => None
    | String c rest' =>
        if Ascii.eqb c "," then parse_elements fuel rest' (acc ++ [v])
        else if Ascii.eqb c "]" then Some (JArray (acc ++ [v]), rest')
        else None
    end.
Proof. reflexivity. Qed.

Lemma parse_value_open_array (fuel : nat) (c : ascii) (t : string) :
  is_ws c = false -> Ascii.eqb c "]" = false ->
  parse_value (S fuel) (String "[" (String c t)) = parse_elements fuel (String c t) [].
Proof.
  intros Hws Hc.
  change (parse_value (S fuel) (String "[" (String c t)))
    with (match skip_ws (String c t) with
          | EmptyString => None
          | String c' rest' =>
              if Ascii.eqb c' "]" then Some (JArray [], rest')
              else parse_elements fuel (String c t) []
          end).
  cbn [skip_ws]. by rewrite Hws, Hc.
Qed.

Lemma parse_value_string (fuel : nat) (s rest : string) :
  parse_value (S fuel) (String.append (quote s) rest) = Some (JString s, rest).
Proof.
  unfold quote. rewrite append_String, append_assoc, append_String, append_EmptyString.
  change (parse_value (S fuel) (String dquote (String.append (escape s) (String dquote rest))))
    with ('(str, rest') ← parse_chars (String.append (escape s) (String dquote rest));
          Some (JString str, rest')).
  by rewrite parse_chars_quote.
Qed.

Lemma parse_elements_join (items : list JSValue) :
  Forall round_trips items ->
  forallb is_json items = true ->
  items <> [] ->
  forall acc fuel rest,
    2 * String.length (join "," (map stringify items)) + 1 < fuel ->
    parse_elements fuel
      (String.append (join "," (map stringify items)) (String "]" rest)) acc
    = Some (JArray (acc ++ items), rest).
Proof.
  induction 1 as [|x items Hx Hitems IH]; [done|].
  intros Hjson _ acc fuel rest Hfuel.
  cbn [forallb] in Hjson. apply andb_prop in Hjson as [Hjx Hjitems].
  destruct fuel as [|fuel]; [lia|]. rewrite parse_elements_S.
  destruct items as [|y items].
  - cbn [map join] in *.
    rewrite (Hx Hjx fuel (String "]" rest)) by (done || lia). reflexivity.
  - cbn [map] in Hfuel |- *. rewrite join_cons in Hfuel |- *.
    rewrite !length_append in Hfuel. cbn [String.length] in Hfuel.
    rewrite !append_assoc, append_String, append_EmptyString.
    rewrite (Hx Hjx fuel) by (done || lia).
    cbn [mbind option_bind skip_ws].
    change (is_ws ",") with false. cbn iota.
    change (Ascii.eqb "," ",") with true. cbn iota.
    change (stringify y :: map stringify items) with (map stringify (y :: items)) in *.
    rewrite IH by (done || lia). by rewrite <- app_assoc.
Qed.


Lemma append_nil_r (a : string) : String.append a EmptyString = a.
Proof.
  induction a as [|x a IH]; [reflexivity|]. rewrite append_String. by rewrite IH.
Qed.

Lemma set_field_fresh (k : string) (v : JSValue) (acc : list (string * JSValue)) :
  ~ In k (map fst acc) -> set_field k v acc = acc ++ [(k, v)].
Proof.
  induction acc as [|[k' v'] acc IH]; intros Hk; [reflexivity|].
  cbn [set_field]. cbn [map fst In] in Hk.
  destruct (String.eqb_spec k k') as [->|_]; [tauto|].
  rewrite IH by tauto. reflexivity.
Qed.

Lemma parse_members_member (fuel : nat) (k text tail : string)
    (acc : list (string * JSValue)) :
  parse_members (S fuel)
    (String.append (String.append (quote k) (String.append ":" text)) tail) acc
  = '(v, rest) ← parse_value fuel (String.append text tail);
    match skip_ws rest with
    | EmptyString => None
    | String c rest' =>
        if Ascii.eqb c "," then parse_members fuel rest' (set_field k v acc)
        else if Ascii.eqb c "}" then Some (JObject (set_field k v acc), rest')
        else None
    end.
Proof.
  unfold quote.
  rewrite !append_assoc, !append_String, !append_assoc, !append_String,
    !append_EmptyString.
  change (parse_members (S fuel)
            (String dquote
               (String.append (escape k)
                  (String dquote (String ":" (String.append text tail))))) acc)
    with ('(k', rest) ← parse_chars
            (String.append (escape k)
               (String dquote (String ":" (String.append text tail))));
          match skip_ws rest with
          | EmptyString => None
          | String c' rest =>
              if Ascii.eqb c' ":" then
                '(v, rest) ← parse_value fuel rest;
                match skip_ws rest with
                | EmptyString => None
                | String c'' rest' =>
                    if Ascii.eqb c'' "," then parse_members fuel rest' (set_field k' v acc)
                    else if Ascii.eqb c'' "}" then Some (JObject (set_field k' v acc), rest')
                    else None
                end
              else None
          end).
  rewrite parse_chars_quote. reflexivity.
Qed.

Lemma parse_members_join (fields : list (string * JSValue)) :
  Forall (fun kv => round_trips (snd kv)) fields ->
  forallb (fun kv => is_json (snd kv)) fields = true ->
  fields <> [] ->
  forall acc fuel rest,
    List.NoDup (map fst (acc ++ fields)) ->
    2 * String.length (join "," (map member_text fields)) + 1 < fuel ->
    parse_members fuel
      (String.append (join "," (map member_text fields)) (String "}" rest)) acc
    = Some (JObject (acc ++ fields), rest).
Proof.
  induction 1 as [|[k v] fields Hv Hfields IH]; [done|].
  intros Hjson _ acc fuel rest Hnodup Hfuel.
  cbn [forallb snd] in Hjson, Hv. apply andb_prop in Hjson as [Hjv Hjfields].
  assert (Hfresh : ~ In k (map fst acc)).
  { rewrite map_app in Hnodup. cbn [map fst] in Hnodup.
    apply List.NoDup_remove_2 in Hnodup. rewrite in_app_iff in Hnodup. tauto. }
  destruct fuel as [|fuel]; [lia|].
  destruct fields as [|kv fields].
  - cbn [map join] in Hfuel |- *. unfold member_text in Hfuel |- *.
    cbn [fst snd] in Hfuel |- *.
    rewrite !length_append in Hfuel. cbn [String.length] in Hfuel.
    rewrite parse_members_member.
    rewrite (Hv Hjv fuel (String "}" rest)) by (done || lia).
    cbn [mbind option_bind skip_ws].
    change (is_ws "}") with false. cbn iota.
    change (Ascii.eqb "}" ",") with false. change (Ascii.eqb "}" "}") with true.
    cbn iota. rewrite set_field_fresh by done. reflexivity.
  - cbn [map] in Hfuel |- *. rewrite join_cons in Hfuel |- *.
    unfold member_text at 1 in Hfuel. unfold member_text at 1.
    cbn [fst snd] in Hfuel |- *.
    rewrite !length_append in Hfuel. cbn [String.length] in Hfuel.
    rewrite (append_assoc _ _ (String "}" rest)).
    rewrite parse_members_member.
    rewrite append_assoc, append_String, append_EmptyString.
    rewrite (Hv Hjv fuel) by (done || lia).
    cbn [mbind option_bind skip_ws].
    change (is_ws ",") with false. cbn iota.
    change (Ascii.eqb "," ",") with true. cbn iota.
    change (member_text kv :: map member_text fields)
      with (map member_text (kv :: fields)) in *.
    rewrite set_field_fresh by done.
    rewrite IH; [by rewrite <- app_assoc | done | done | | lia].
    by rewrite <- app_assoc.
Qed.

Lemma stringify_object (fields : list (string * JSValue)) :
  stringify (JObject fields)
  = String "{" (String.append (join "," (map member_text fields)) "}").
Proof. reflexivity. Qed.

Lemma stringify_array (items : list JSValue) :
  stringify (JArray items)
  = String "[" (String.append (join "," (map stringify items)) "]").
Proof. reflexivity. Qed.

(** Every JSON value is read back from its text, whatever closes the value
    after it. *)
Theorem parse_value_stringify (v : JSValue) : round_trips v.
Proof.
  induction v as [| |b|n|s|items IH|fields IH|name message]
    using JSValue_nested_ind; intros Hjson fuel rest Hfuel Hrest;
    try discriminate; (destruct fuel as [|fuel]; [lia|]).
  - reflexivity.
  - destruct b; reflexivity.
  - by apply parse_value_number.
  - apply parse_value_string.
  - cbn [is_json] in Hjson. rewrite stringify_array in Hfuel |- *.
    cbn [String.length] in Hfuel. rewrite length_append in Hfuel.
    cbn [String.length] in Hfuel.
    rewrite append_String, append_assoc, append_String, append_EmptyString.
    destruct items as [|x items]; [reflexivity|].
    assert (Hjx : is_json x = true).
    { cbn [forallb] in Hjson. by apply andb_prop in Hjson as [? _]. }
    destruct (stringify_head x Hjx) as (c & t & Hhead & Hws & Hc).
    destruct (join_head "," (stringify x) (map stringify items) c t Hhead) as [t' Hjoin].
    cbn [map]. pose proof Hjoin as Hjoin'. cbn [map] in Hfuel.
    rewrite Hjoin, append_String.
    rewrite parse_value_open_array by done.
    rewrite <- append_String, <- Hjoin.
    change (stringify x :: map stringify items) with (map stringify (x :: items)) in *.
    apply (parse_elements_join (x :: items) IH Hjson) with (acc := []); [done | lia].
  - cbn [is_json] in Hjson. apply andb_prop in Hjson as [Hjson Hnodup].
    apply bool_decide_eq_true_1, NoDup_ListNoDup in Hnodup.
    rewrite stringify_object in Hfuel |- *.
    cbn [String.length] in Hfuel. rewrite length_append in Hfuel.
    cbn [String.length] in Hfuel.
    rewrite append_String, append_assoc, append_String, append_EmptyString.
    destruct fields as [|kv fields]; [reflexivity|].
    destruct (join_head "," (member_text kv) (map member_text fields) dquote
                (String.append
                   (String.append (escape (fst kv)) (String dquote EmptyString))
                   (String.append ":" (stringify (snd kv))))) as [t' Hjoin];
      [reflexivity|].
    cbn [map] in Hfuel |- *. rewrite Hjoin, append_String.
    change (parse_value (S fuel)
              (String "{" (String dquote (String.append t' (String "}" rest)))))
      with (parse_members fuel (String dquote (String.append t' (String "}" rest))) []).
    rewrite <- append_String, <- Hjoin.
    change (member_text kv :: map member_text fields)
      with (map member_text (kv :: fields)) in *.
    apply (parse_members_join (kv :: fields) IH Hjson) with (acc := []); [done | done | lia].
Qed.

(** [JSON.parse(JSON.stringify(v))] is [v] for every JSON value. *)
Theorem parse_stringify (v : JSValue) :
  is_json v = true -> parse (stringify v) = Some v.
Proof.
  intros Hjson. unfold parse.
  pose proof (parse_value_stringify v Hjson
                (2 * String.length (stringify v) + 2) EmptyString) as Hparse.
  rewrite append_nil_r in Hparse. rewrite Hparse by (done || lia). reflexivity.
Qed.

End RefJSONFacts.

(** ** The page on the reference JSON *)

Lemma is_json_collection (r : string -> JSValue) (sched : list string) :
  (forall url, In url sched -> RefJSON.is_json (r url) = true) ->
  RefJSON.is_json (JArray (map r sched)) = true.
Proof.
  intros Hjson. cbn [RefJSON.is_json]. apply forallb_forall.
  intros v (url & <- & Hin)%in_map_iff. by apply Hjson.
Qed.

(** On the reference JSON the cache miss populates the cache for all JSON
    records: the round trip of the stored text is a fact, not a hypothesis. *)
Lemma getRecipes_miss_populates_reference (net : Network) (r : string -> JSValue)
    (sched : list string) (w : World) :
  getItem "recipes" w = None ->
  Permutation sched RECIPE_URLS ->
  (forall url, In url RECIPE_URLS -> net url = JsonResolved (r url)) ->
  (forall url, In url RECIPE_URLS -> RefJSON.is_json (r url) = true) ->
  let C := map r sched in
  let w' := snd (getRecipes RefJSON.parse RefJSON.stringify net sched w) in
  fst (getRecipes RefJSON.parse RefJSON.stringify net sched w) = Fulfilled (JArray C)
  /\ Permutation C (map r RECIPE_URLS)
  /\ (exists s, getItem "recipes" w' = Some s /\ RefJSON.parse s = Some (JArray C))
  /\ forall net' sched',
       getRecipes RefJSON.parse RefJSON.stringify net' sched' w'
       = (Fulfilled (JArray C), w').
Proof.
  intros Hitem Hperm Hnet Hjson C w'. subst w'.
  rewrite (getRecipes_miss_all_succeed RefJSON.parse RefJSON.stringify
             net r sched w Hitem Hperm Hnet).
  cbn [fst snd]. fold C.
  assert (Hround : RefJSON.parse (RefJSON.stringify (JArray C)) = Some (JArray C)).
  { apply RefJSONFacts.parse_stringify, is_json_collection.
    intros url Hin. apply Hjson. by eapply Permutation_in. }
  assert (Hstored : getItem "recipes"
            (saveRecipesToStorage RefJSON.stringify C
               (set_fetched (fetched w ++ RECIPE_URLS) w))
          = Some (RefJSON.stringify (JArray C))) by apply getItem_setItem.
  split; [done|]. split; [by apply Permutation_map|].
  split; [by eauto|].
  intros net' sched'.
  by apply (getRecipes_cached RefJSON.parse RefJSON.stringify eq_refl
              net' sched' _ _ _ Hstored Hround).
Qed.

(** On the reference JSON every array of JSON values survives
    [saveRecipesToStorage] followed by [getRecipes]. *)
Lemma saveRecipesToStorage_getRecipes_reference (net : Network) (sched : list string)
    (w : World) (r : list JSValue) :
  forallb RefJSON.is_json r = true ->
  getRecipes RefJSON.parse RefJSON.stringify net sched
    (saveRecipesToStorage RefJSON.stringify r w)
  = (Fulfilled (JArray r), saveRecipesToStorage RefJSON.stringify r w).
Proof.
  intros Hjson.
  apply (getRecipes_cached RefJSON.parse RefJSON.stringify eq_refl net sched _
           (RefJSON.stringify (JArray r)));
    [apply getItem_setItem | by apply RefJSONFacts.parse_stringify].
Qed.

(** ** More about the network path *)

Lemma first_error_None (net : Network) (sched : list string) :
  first_error net sched = None ->
  Forall (fun url => succeeds net url = true) sched.
Proof.
  induction sched as [|url rest IH]; cbn [first_error]; [constructor|].
  destruct (net url) eqn:Hurl; try discriminate. intros H.
  constructor; [unfold succeeds; by rewrite Hurl | auto].
Qed.

Lemma first_error_Some (net : Network) (sched : list string) (e : JSValue) :
  first_error net sched = Some e ->
  exists url, In url sched /\ succeeds net url = false.
Proof.
  unfold succeeds. induction sched as [|url rest IH]; cbn [first_error]; [discriminate|].
  destruct (net url) eqn:Hurl.
  - intros _. exists url. rewrite Hurl. split; [by left | done].
  - intros _. exists url. rewrite Hurl. split; [by left | done].
  - intros H. destruct (IH H) as (u & Hin & Hu). exists u. split; [by right | done].
Qed.

Section MoreNetworkPath.

Variable JSON_parse : string -> option JSValue.
Variable JSON_stringify : JSValue -> string.
Variable net : Network.

(** The outcome of the network path, in every run in which each request
    completes at most once. *)
Lemma load_from_network_cases (sched : list string) (w : World) :
  NoDup sched ->
  incl sched RECIPE_URLS ->
  load_from_network JSON_stringify net sched w
  = let w1 := set_console (console w ++ map ConsoleError (errors_of net sched))
                (set_fetched (fetched w ++ RECIPE_URLS) w) in
    match first_error net sched with
    | Some e => (Rejected e, w1)
    | None =>
        if (length RECIPE_URLS <=? length sched)%nat
        then (Fulfilled (JArray (map (record_of net) sched)),
              saveRecipesToStorage JSON_stringify (map (record_of net) sched) w1)
        else (Pending, w1)
    end.
Proof.
  intros Hnodup Hincl. cbn zeta.
  pose proof (NoDup_incl_length (proj1 (NoDup_ListNoDup sched) Hnodup) Hincl) as Hlen.
  destruct (first_error net sched) as [e|] eqn:Hfirst.
  - destruct (first_error_Some net sched e Hfirst) as (url & Hin & Hfail).
    pose proof (successes_lt net sched url Hin Hfail).
    rewrite load_from_network_below by lia. by rewrite Hfirst.
  - pose proof (first_error_None net sched Hfirst) as Hall.
    destruct (first_error_all_succeed net sched Hall) as (_ & Herrs & Hfilter).
    rewrite Herrs. cbn [map]. rewrite app_nil_r.
    destruct (Nat.leb_spec (length RECIPE_URLS) (length sched)) as [Hge|Hlt].
    + rewrite load_from_network_all by (done || lia).
      reflexivity.
    + rewrite load_from_network_below by (rewrite Hfilter; lia).
      rewrite Hfirst, Herrs. cbn [map]. by rewrite app_nil_r.
Qed.

(** The callbacks write under ["recipes"] and nowhere else, and only add. *)
Lemma complete_other_keys (sched : list string) (st : Load * World) (key : string) :
  let w' := snd (fold_left (complete JSON_stringify net) sched st) in
  (key <> "recipes" -> getItem key w' = getItem key (snd st))
  /\ (is_Some (getItem "recipes" (snd st)) -> is_Some (getItem "recipes" w')).
Proof.
  revert st. induction sched as [|url rest IH]; intros [l w]; [done|].
  cbn [fold_left]. cbn zeta in *.
  destruct (IH (complete JSON_stringify net (l, w) url)) as [IHk IHr].
  assert (Hstep :
    (key <> "recipes" ->
     getItem key (snd (complete JSON_stringify net (l, w) url)) = getItem key w)
    /\ (is_Some (getItem "recipes" w) ->
        is_Some (getItem "recipes" (snd (complete JSON_stringify net (l, w) url))))).
  { unfold complete, err, on_json.
    destruct (net url); [done | done |].
    destruct (length RECIPE_URLS <=? S (finished l))%nat; [|done].
    cbn [snd]. unfold saveRecipesToStorage. split.
    - intros Hkey. unfold getItem, setItem. cbn. by rewrite lookup_insert_ne.
    - intros _. rewrite getItem_setItem. by eexists. }
  destruct Hstep as [Hk Hr]. cbn [snd]. split.
  - intros Hkey. rewrite IHk by done. by apply Hk.
  - intros Hsome. by apply IHr, Hr.
Qed.

(** With successes only and at most six of them, the promise is pending
    until the last one has completed. *)
Lemma pending_before_last (sched : list string) (w : World) :
  Forall (fun url => succeeds net url = true) sched ->
  length sched <= length RECIPE_URLS ->
  truthy_item (getItem "recipes" w) = false ->
  fst (getRecipes JSON_parse JSON_stringify net (removelast sched) w) = Pending.
Proof.
  intros Hall Hlen Hmiss. rewrite getRecipes_miss by done.
  assert (Hfront : Forall (fun url => succeeds net url = true) (removelast sched)
                   /\ (sched = [] \/ S (length (removelast sched)) = length sched)).
  { destruct sched as [|first others]; [by split; [|left]|].
    destruct (exists_last (l := first :: others)) as (pre & url & Heq); [done|].
    rewrite Heq in Hall |- *. rewrite removelast_last.
    apply Forall_app in Hall as [Hpre _]. split; [done|]. right.
    rewrite length_app. cbn. lia. }
  destruct Hfront as [Hfront Hshort].
  destruct (first_error_all_succeed net _ Hfront) as (Hfirst & _ & Hfilter).
  rewrite load_from_network_below, Hfirst; [done|]. rewrite Hfilter.
  destruct Hshort as [-> | Hshort]; [cbn; lia | lia].
Qed.

(** X1. The outcome of a cache miss, complete: when the stored item is
    falsy and each request completes at most once, [getRecipes] has issued
    the six requests and logged every failure in completion order; it rejects
    with the first failure when there is one, resolves with the records in
    completion order and saves them when all six completed, and is pending
    with the storage untouched otherwise. *)
Theorem getRecipes_miss_outcome (sched : list string) (w : World) :
  truthy_item (getItem "recipes" w) = false ->
  NoDup sched ->
  incl sched RECIPE_URLS ->
  getRecipes JSON_parse JSON_stringify net sched w
  = let w1 := set_console (console w ++ map ConsoleError (errors_of net sched))
                (set_fetched (fetched w ++ RECIPE_URLS) w) in
    match first_error net sched with
    | Some e => (Rejected e, w1)
    | None =>
        if (length RECIPE_URLS <=? length sched)%nat
        then (Fulfilled (JArray (map (record_of net) sched)),
              saveRecipesToStorage JSON_stringify (map (record_of net) sched) w1)
        else (Pending, w1)
    end.
Proof.
  intros Hmiss Hnodup Hincl.
  rewrite getRecipes_miss by done. by apply load_from_network_cases.
Qed.

(** X2. No partial success: on a cache miss in which each request completes
    at most once, [getRecipes] resolves only when all six requests completed
    and every one succeeded, and then with the six records in completion
    order. *)
Theorem getRecipes_resolves_only_complete (sched : list string) (w : World)
    (v : JSValue) :
  truthy_item (getItem "recipes" w) = false ->
  NoDup sched ->
  incl sched RECIPE_URLS ->
  fst (getRecipes JSON_parse JSON_stringify net sched w) = Fulfilled v ->
  Permutation sched RECIPE_URLS
  /\ Forall (fun url => succeeds net url = true) RECIPE_URLS
  /\ v = JArray (map (record_of net) sched)
  /\ Permutation (map (record_of net) sched) (map (record_of net) RECIPE_URLS).
Proof.
  intros Hmiss Hnodup Hincl.
  rewrite getRecipes_miss, load_from_network_cases by done. cbn zeta.
  destruct (first_error net sched) as [e|] eqn:Hfirst; [discriminate|].
  destruct (Nat.leb_spec (length RECIPE_URLS) (length sched)) as [Hge|Hlt];
    [|discriminate].
  cbn [fst]. intros [= <-].
  assert (Hperm : Permutation sched RECIPE_URLS).
  { apply NoDup_Permutation_bis; [by apply NoDup_ListNoDup | done | done]. }
  split; [done|]. split; [|split; [done | by apply Permutation_map]].
  apply List.Forall_forall. intros url Hin.
  pose proof (first_error_None net sched Hfirst) as Hall.
  rewrite List.Forall_forall in Hall. apply Hall.
  eapply Permutation_in; [symmetry; exact Hperm | exact Hin].
Qed.

(** X3. A request that never completes hangs the page: on a cache miss,
    while fewer than six requests have completed and none has failed,
    [getRecipes] and [init] are pending, nothing is rendered, stored or
    logged, and the six requests have been issued. *)
Theorem init_waits_for_every_request (sched : list string) (w : World) :
  truthy_item (getItem "recipes" w) = false ->
  Forall (fun url => succeeds net url = true) sched ->
  length sched < length RECIPE_URLS ->
  fst (getRecipes JSON_parse JSON_stringify net sched w) = Pending
  /\ fst (init JSON_parse JSON_stringify net sched w) = Pending
  /\ mainElement (snd (init JSON_parse JSON_stringify net sched w)) = mainElement w
  /\ localStorage (snd (init JSON_parse JSON_stringify net sched w)) = localStorage w
  /\ console (snd (init JSON_parse JSON_stringify net sched w)) = console w
  /\ fetched (snd (init JSON_parse JSON_stringify net sched w))
     = fetched w ++ RECIPE_URLS.
Proof.
  intros Hmiss Hall Hlen.
  destruct (first_error_all_succeed net sched Hall) as (Hfirst & Herrs & Hfilter).
  assert (Hrun : forall w0, truthy_item (getItem "recipes" w0) = false ->
    getRecipes JSON_parse JSON_stringify net sched w0
    = (Pending, set_fetched (fetched w0 ++ RECIPE_URLS) w0)).
  { intros w0 Hmiss0. rewrite getRecipes_miss by done.
    rewrite load_from_network_below by (rewrite Hfilter; lia).
    rewrite Hfirst, Herrs. cbn [map]. rewrite app_nil_r. reflexivity. }
  destruct (initializeServiceWorker_fields w) as (Hs & Hf & Hc & Hm).
  assert (Hmiss' : truthy_item (getItem "recipes" (initializeServiceWorker w)) = false).
  { unfold getItem in *. by rewrite Hs. }
  split; [by rewrite Hrun|].
  rewrite init_settled_last by (intros _; apply pending_before_last; (done || lia)).
  rewrite Hrun by done.
  cbn [init_resume await_or_log fst snd set_fetched mainElement localStorage
       console fetched].
  by rewrite Hs, Hf, Hc, Hm.
Qed.

(** X4. Error logging: on a cache miss in which a completing request fails,
    [getRecipes] logs the error of every failed request once, in completion
    order; under [init] the catch logs the error of the first failure a second
    time, right after its first line and before the errors of the failures
    that complete later. *)
Theorem init_logs_first_error_twice (sched : list string) (w : World) (url : string) :
  truthy_item (getItem "recipes" w) = false ->
  NoDup sched ->
  incl sched RECIPE_URLS ->
  In url sched ->
  succeeds net url = false ->
  exists e later,
    first_error net sched = Some e
    /\ errors_of net sched = e :: later
    /\ console (snd (getRecipes JSON_parse JSON_stringify net sched w))
       = console w ++ ConsoleError e :: map ConsoleError later
    /\ console (snd (init JSON_parse JSON_stringify net sched w))
       = console w ++ ConsoleError e :: ConsoleError e :: map ConsoleError later.
Proof.
  intros Hmiss Hnodup Hincl Hin Hfail.
  destruct (first_error_of_failure net sched url Hin Hfail) as [e He].
  assert (Hrun : forall w0, truthy_item (getItem "recipes" w0) = false ->
    getRecipes JSON_parse JSON_stringify net sched w0
    = (Rejected e,
       set_console (console w0 ++ map ConsoleError (errors_of net sched))
         (set_fetched (fetched w0 ++ RECIPE_URLS) w0))).
  { intros w0 Hmiss0. rewrite getRecipes_miss, load_from_network_cases by done.
    cbn zeta. by rewrite He. }
  destruct (initializeServiceWorker_fields w) as (Hs & Hf & Hc & Hm).
  assert (Hmiss' : truthy_item (getItem "recipes" (initializeServiceWorker w)) = false).
  { unfold getItem in *. by rewrite Hs. }
  pose proof (Hrun (initializeServiceWorker w) Hmiss') as Hget.
  apply (f_equal fst) in Hget. cbn [fst] in Hget.
  rewrite getRecipes_miss, load_from_network_fold in Hget by done.
  cbn [fst] in Hget.
  destruct (init_awaiting_rejected JSON_stringify net sched (mkLoad [] 0 Pending) _ e
              eq_refl Hget) as (later & Herrs & _ & Hcon & _).
  exists e, later. split; [done|]. split; [done|]. split.
  - rewrite Hrun by done. cbn. by rewrite Herrs.
  - rewrite init_miss, Hcon by done. cbn. by rewrite Hc.
Qed.

(** X5. A rejection is final: once [getRecipes] has rejected, completions
    that come later neither resolve the promise nor replace the error. *)
Theorem getRecipes_rejection_is_final (pre post : list string) (w : World)
    (e : JSValue) :
  fst (getRecipes JSON_parse JSON_stringify net pre w) = Rejected e ->
  fst (getRecipes JSON_parse JSON_stringify net (pre ++ post) w) = Rejected e.
Proof.
  unfold getRecipes. destruct (truthy_item _); [done|].
  unfold load_from_network. rewrite fold_left_app.
  pose proof (complete_settled JSON_stringify net post
    (fold_left (complete JSON_stringify net) pre
       (mkLoad [] 0 Pending,
        fold_left (fun w url => fetch url w) RECIPE_URLS w))) as Hfinal.
  destruct (fold_left _ pre _) as [l1 w1]. cbn [fst] in *.
  intros Hrejected. rewrite Hrejected in Hfinal.
  specialize (Hfinal ltac:(discriminate)).
  by destruct (fold_left _ post _) as [l2 w2].
Qed.

(** X6. [getRecipes] owns one key: whatever the requests do, every other
    key of the storage keeps its value, and a ["recipes"] entry that exists
    is never removed. *)
Theorem getRecipes_other_keys (sched : list string) (w : World) (key : string) :
  key <> "recipes" ->
  getItem key (snd (getRecipes JSON_parse JSON_stringify net sched w)) = getItem key w
  /\ (is_Some (getItem "recipes" w) ->
      is_Some (getItem "recipes"
                 (snd (getRecipes JSON_parse JSON_stringify net sched w)))).
Proof.
  intros Hkey. unfold getRecipes. destruct (truthy_item _).
  - by destruct (JSON_parse _).
  - unfold load_from_network. rewrite fetch_each.
    pose proof (complete_other_keys sched
      (mkLoad [] 0 Pending, set_fetched (fetched w ++ RECIPE_URLS) w) key)
      as [Hk Hr].
    destruct (fold_left _ sched _) as [l w']. cbn [snd] in *. split; auto.
Qed.

(** X7. An empty cache entry is replaced: when the store holds the empty
    string under ["recipes"] and all six requests succeed, [getRecipes]
    resolves with the six records in completion order and the entry becomes
    their serialization. *)
Theorem getRecipes_replaces_empty_string (r : string -> JSValue)
    (sched : list string) (w : World) :
  getItem "recipes" w = Some EmptyString ->
  Permutation sched RECIPE_URLS ->
  (forall url, In url RECIPE_URLS -> net url = JsonResolved (r url)) ->
  fst (getRecipes JSON_parse JSON_stringify net sched w)
  = Fulfilled (JArray (map r sched))
  /\ getItem "recipes" (snd (getRecipes JSON_parse JSON_stringify net sched w))
     = Some (JSON_stringify (JArray (map r sched))).
Proof.
  intros Hitem Hperm Hnet.
  assert (Hmiss : truthy_item (getItem "recipes" w) = false) by by rewrite Hitem.
  assert (Hall : Forall (fun url => succeeds net url = true) sched).
  { apply List.Forall_forall. intros url Hin. unfold succeeds.
    rewrite (Hnet url); [done|]. by eapply Permutation_in. }
  assert (Hrec : map (record_of net) sched = map r sched).
  { apply map_ext_in. intros url Hin. unfold record_of.
    rewrite (Hnet url); [done|]. by eapply Permutation_in. }
  rewrite getRecipes_miss by done.
  rewrite load_from_network_all, Hrec by (done || apply Permutation_length, Hperm).
  split; [done|]. apply getItem_setItem.
Qed.

End MoreNetworkPath.

(** ** More about storage and rendering *)

Section MoreStorage.

Variable JSON_stringify : JSValue -> string.

(** X8. [saveRecipesToStorage] replaces the entry: after it the store holds
    the serialization of the array under ["recipes"] and what it held before
    under every other key, an earlier save leaves no trace, and nothing but
    the storage changes. *)
Theorem saveRecipesToStorage_replaces (r1 r2 : list JSValue) (w : World) :
  saveRecipesToStorage JSON_stringify r2 (saveRecipesToStorage JSON_stringify r1 w)
  = saveRecipesToStorage JSON_stringify r2 w
  /\ (forall key,
        getItem key (saveRecipesToStorage JSON_stringify r2 w)
        = if decide (key = "recipes")
          then Some (JSON_stringify (JArray r2))
          else getItem key w)
  /\ set_localStorage (localStorage w) (saveRecipesToStorage JSON_stringify r2 w) = w.
Proof.
  unfold saveRecipesToStorage, setItem, getItem, set_localStorage. cbn.
  split; [by rewrite insert_insert_eq|]. split; [|by destruct w].
  intros key. destruct (decide (key = "recipes")) as [->|Hne].
  - apply lookup_insert_eq.
  - by apply lookup_insert_ne.
Qed.

End MoreStorage.

Lemma forEach_append_card_no_main (items : list JSValue) (w : World) :
  mainElement w = None ->
  forEach append_card items w
  = match items with
    | [] => (Normal, w)
    | _ :: _ => (Throw (JError "TypeError" "main is null"), w)
    end.
Proof.
  intros Hmain. destruct items as [|x items]; [reflexivity|].
  cbn [forEach]. unfold append_card. by rewrite Hmain.
Qed.

Lemma set_mainElement_same (w : World) : set_mainElement (mainElement w) w = w.
Proof. by destruct w. Qed.

(** X9. When rendering throws: [addRecipesToDocument] ends normally exactly
    when its argument is falsy, or is an array and the array is empty or the
    document has a [<main>]; in every other case it throws a [TypeError] and
    leaves the browser state as it was. *)
Theorem addRecipesToDocument_throws_iff (recipes : JSValue) (w : World) :
  (fst (addRecipesToDocument recipes w) = Normal
   <-> truthy recipes = false
       \/ exists items, recipes = JArray items
                        /\ (items = [] \/ is_Some (mainElement w)))
  /\ (fst (addRecipesToDocument recipes w) = Normal
      \/ exists message,
           addRecipesToDocument recipes w = (Throw (JError "TypeError" message), w)).
Proof.
  unfold addRecipesToDocument.
  destruct (truthy recipes) eqn:Htruthy; cbn [negb]; [|split; [split|]; auto].
  assert (Hnot_array : forall message,
    (forall items, recipes <> JArray items) ->
    ((Throw (JError "TypeError" message), w).1 = Normal
     <-> true = false
         \/ exists items, recipes = JArray items
                          /\ (items = [] \/ is_Some (mainElement w)))
    /\ ((Throw (JError "TypeError" message), w).1 = Normal
        \/ exists message',
             (Throw (JError "TypeError" message), w)
             = (Throw (JError "TypeError" message'), w))).
  { intros message Hno. split; [split|]; [discriminate | | by right; eexists].
    intros [?|(items & -> & _)]; [discriminate|]. by destruct (Hno items). }
  destruct recipes as [| | | | |items| |]; try (by apply Hnot_array).
  destruct (mainElement w) as [children|] eqn:Hmain.
  - rewrite (forEach_append_card items children w Hmain). cbn [fst].
    split; [split|]; [|done|by left].
    intros _. right. exists items. split; [done|]. right. by eexists.
  - rewrite forEach_append_card_no_main by done. destruct items as [|x items].
    + split; [split|]; [|done|by left]. intros _. right. exists []. auto.
    + split; [split|]; [discriminate| |by right; eexists].
      intros [?|(items' & [= <-] & [?|[? ?]])]; discriminate.
Qed.

(** X10. Rendering only appends to [<main>]: whatever its argument and
    whether it throws or not, [addRecipesToDocument] changes nothing but the
    children of [<main>], keeps the children that were there, in place, and
    adds after them [recipe-card] elements only. *)
Theorem addRecipesToDocument_only_appends (recipes : JSValue) (w : World) :
  exists new,
    snd (addRecipesToDocument recipes w)
    = set_mainElement ((fun children => children ++ new) <$> mainElement w) w
    /\ Forall (fun element => tagName element = "recipe-card") new.
Proof.
  assert (Hnothing :
    w = set_mainElement ((fun children => children ++ []) <$> mainElement w) w).
  { destruct w as [? ? ? ? ? ? [children|]]; cbn; [|done].
    by rewrite app_nil_r. }
  unfold addRecipesToDocument.
  destruct (negb (truthy recipes)); [by exists []|].
  destruct recipes as [| | | | |items| |]; try (by exists []).
  destruct (mainElement w) as [children|] eqn:Hmain.
  - exists (map (mkElement "recipe-card") items).
    rewrite (forEach_append_card items children w Hmain). split; [done|].
    apply List.Forall_forall. by intros element (recipe & <- & _)%in_map_iff.
  - exists []. rewrite forEach_append_card_no_main by done.
    split; [|done]. cbn [fmap option_fmap option_map].
    rewrite <- Hmain, set_mainElement_same. by destruct items.
Qed.

(** X11. Rendering twice renders both: on a document with a [<main>],
    [addRecipesToDocument] on one array and then on another ends normally
    both times and leaves in [<main>] the old children, then the cards of the
    first array, then the cards of the second, each in order; nothing is
    replaced and nothing is deduplicated.  It is what one call on the two
    arrays joined leaves. *)
Theorem addRecipesToDocument_twice (first second : list JSValue)
    (children : list Element) (w : World) :
  mainElement w = Some children ->
  fst (addRecipesToDocument (JArray first) w) = Normal
  /\ fst (addRecipesToDocument (JArray second)
            (snd (addRecipesToDocument (JArray first) w))) = Normal
  /\ mainElement
       (snd (addRecipesToDocument (JArray second)
               (snd (addRecipesToDocument (JArray first) w))))
     = Some (children ++ map (mkElement "recipe-card") first
                      ++ map (mkElement "recipe-card") second)
  /\ addRecipesToDocument (JArray second) (snd (addRecipesToDocument (JArray first) w))
     = addRecipesToDocument (JArray (first ++ second)) w.
Proof.
  intros Hmain. unfold addRecipesToDocument. cbn [truthy negb].
  rewrite (forEach_append_card first children w Hmain). cbn [fst snd].
  rewrite (forEach_append_card second
             (children ++ map (mkElement "recipe-card") first)) by done.
  rewrite (forEach_append_card (first ++ second) children w Hmain).
  cbn [fst snd]. split; [done|]. split; [done|]. split.
  - cbn. by rewrite <- app_assoc.
  - rewrite map_app, app_assoc. by destruct w.
Qed.

(** [addRecipesToDocument] reads and writes [<main>] only. *)
Lemma addRecipesToDocument_frame (recipes : JSValue) (w : World) :
  localStorage (snd (addRecipesToDocument recipes w)) = localStorage w
  /\ fetched (snd (addRecipesToDocument recipes w)) = fetched w
  /\ console (snd (addRecipesToDocument recipes w)) = console w.
Proof.
  unfold addRecipesToDocument. destruct (negb (truthy recipes)); [done|].
  destruct recipes as [| | | | |items| |]; try done.
  destruct (mainElement w) as [children|] eqn:Hmain.
  - by rewrite (forEach_append_card items children w Hmain).
  - rewrite forEach_append_card_no_main by done. by destruct items.
Qed.

(** ** More about [init] *)

Section MoreInit.

Variable JSON_parse : string -> option JSValue.
Variable JSON_stringify : JSValue -> string.
Variable net : Network.

(** A miss, on a falsy item of either kind, on which all six succeed. *)
Lemma getRecipes_miss_success (r : string -> JSValue) (sched : list string)
    (w : World) :
  truthy_item (getItem "recipes" w) = false ->
  Permutation sched RECIPE_URLS ->
  (forall url, In url RECIPE_URLS -> net url = JsonResolved (r url)) ->
  getRecipes JSON_parse JSON_stringify net sched w
  = (Fulfilled (JArray (map r sched)),
     saveRecipesToStorage JSON_stringify (map r sched)
       (set_fetched (fetched w ++ RECIPE_URLS) w)).
Proof.
  intros Hmiss Hperm Hnet.
  assert (Hall : Forall (fun url => succeeds net url = true) sched).
  { apply List.Forall_forall. intros url Hin. unfold succeeds.
    rewrite (Hnet url); [done|]. by eapply Permutation_in. }
  assert (Hrec : map (record_of net) sched = map r sched).
  { apply map_ext_in. intros url Hin. unfold record_of.
    rewrite (Hnet url); [done|]. by eapply Permutation_in. }
  rewrite getRecipes_miss by done.
  by rewrite load_from_network_all, Hrec by (done || apply Permutation_length, Hperm).
Qed.

Lemma miss_after_initializeServiceWorker (w : World) :
  getItem "recipes" (initializeServiceWorker w) = getItem "recipes" w.
Proof.
  unfold getItem. by destruct (initializeServiceWorker_fields w) as (-> & _).
Qed.

(** On such a miss the rest of [init] runs after the sixth completion. *)
Lemma init_miss_success (r : string -> JSValue) (sched : list string) (w : World) :
  truthy_item (getItem "recipes" w) = false ->
  Permutation sched RECIPE_URLS ->
  (forall url, In url RECIPE_URLS -> net url = JsonResolved (r url)) ->
  init JSON_parse JSON_stringify net sched w
  = async_result
      (addRecipesToDocument (JArray (map r sched))
         (saveRecipesToStorage JSON_stringify (map r sched)
            (set_fetched (fetched (initializeServiceWorker w) ++ RECIPE_URLS)
               (initializeServiceWorker w)))).
Proof.
  intros Hmiss Hperm Hnet.
  assert (Hmiss' : truthy_item (getItem "recipes" (initializeServiceWorker w)) = false)
    by by rewrite miss_after_initializeServiceWorker.
  rewrite init_settled_last.
  - by rewrite (getRecipes_miss_success r sched (initializeServiceWorker w)).
  - intros _. apply pending_before_last; [|by rewrite (Permutation_length Hperm)|done].
    apply List.Forall_forall. intros url Hin. unfold succeeds.
    rewrite (Hnet url); [done|]. by eapply Permutation_in.
Qed.

(** X12. First visit: on a cache miss with all six requests succeeding and
    a document with a [<main>], [init] ends normally; [<main>] holds its old
    children followed by one card per record in completion order, the store
    holds the serialization of the records in that order, the six requests
    were issued, and nothing was logged. *)
Theorem init_first_visit (r : string -> JSValue) (sched : list string)
    (w : World) (children : list Element) :
  truthy_item (getItem "recipes" w) = false ->
  Permutation sched RECIPE_URLS ->
  (forall url, In url RECIPE_URLS -> net url = JsonResolved (r url)) ->
  mainElement w = Some children ->
  fst (init JSON_parse JSON_stringify net sched w) = Fulfilled JUndefined
  /\ mainElement (snd (init JSON_parse JSON_stringify net sched w))
     = Some (children ++ map (fun url => mkElement "recipe-card" (r url)) sched)
  /\ getItem "recipes" (snd (init JSON_parse JSON_stringify net sched w))
     = Some (JSON_stringify (JArray (map r sched)))
  /\ fetched (snd (init JSON_parse JSON_stringify net sched w))
     = fetched w ++ RECIPE_URLS
  /\ console (snd (init JSON_parse JSON_stringify net sched w)) = console w.
Proof.
  intros Hmiss Hperm Hnet Hmain.
  destruct (initializeServiceWorker_fields w) as (Hs & Hf & Hc & Hm).
  rewrite (init_miss_success r) by done.
  unfold addRecipesToDocument. cbn [truthy negb].
  rewrite (forEach_append_card (map r sched) children)
    by (cbn; by rewrite Hm).
  cbn [async_result fst snd]. rewrite map_map. split; [done|]. split; [done|].
  split; [apply getItem_setItem|]. cbn. by rewrite Hf, Hc.
Qed.

(** X13. A page without [<main>]: on a cache miss with all six requests
    succeeding, [init] rejects with a [TypeError] thrown by the renderer,
    after the records were stored: the cache is populated all the same. *)
Theorem init_without_main (r : string -> JSValue) (sched : list string)
    (w : World) :
  truthy_item (getItem "recipes" w) = false ->
  Permutation sched RECIPE_URLS ->
  (forall url, In url RECIPE_URLS -> net url = JsonResolved (r url)) ->
  mainElement w = None ->
  (exists message,
     fst (init JSON_parse JSON_stringify net sched w)
     = Rejected (JError "TypeError" message))
  /\ getItem "recipes" (snd (init JSON_parse JSON_stringify net sched w))
     = Some (JSON_stringify (JArray (map r sched)))
  /\ mainElement (snd (init JSON_parse JSON_stringify net sched w)) = None.
Proof.
  intros Hmiss Hperm Hnet Hmain.
  destruct (initializeServiceWorker_fields w) as (Hs & Hf & Hc & Hm).
  rewrite (init_miss_success r) by done.
  unfold addRecipesToDocument. cbn [truthy negb].
  rewrite forEach_append_card_no_main by (cbn; by rewrite Hm).
  destruct sched as [|url sched].
  { apply Permutation_length in Hperm. discriminate. }
  cbn [map async_result fst snd]. split; [by eexists|]. split; [apply getItem_setItem|].
  cbn. by rewrite Hm.
Qed.

(** [JSON.parse("")] throws: the empty text is no JSON. *)
Hypothesis JSON_parse_empty : JSON_parse EmptyString = None.

(** On a hit the rest of [init] runs at once, on the parsed value. *)
Lemma init_cached (net0 : Network) (sched : list string) (w : World)
    (s : string) (v : JSValue) :
  getItem "recipes" w = Some s ->
  JSON_parse s = Some v ->
  init JSON_parse JSON_stringify net0 sched w
  = async_result (addRecipesToDocument v (initializeServiceWorker w)).
Proof using JSON_parse_empty.
  intros Hitem Hs.
  rewrite init_settled_last.
  - by rewrite (getRecipes_cached JSON_parse JSON_stringify JSON_parse_empty net0 sched
                  (initializeServiceWorker w) s v)
      by (done || by rewrite miss_after_initializeServiceWorker).
  - rewrite Hitem, (parsed_text_truthy JSON_parse JSON_parse_empty s v Hs).
    discriminate.
Qed.

(** X14. Repeat visit: when the store holds a text that deserializes to the
    collection [C] and the document has a [<main>], [init] ends normally with
    one card per recipe of [C] appended in the stored order, and apart from
    that and the service worker listener the browser state is as before: no
    request, no storage write, no log line. *)
Theorem init_cache_hit (sched : list string) (w : World) (s : string)
    (C : list JSValue) (children : list Element) :
  getItem "recipes" w = Some s ->
  JSON_parse s = Some (JArray C) ->
  mainElement w = Some children ->
  init JSON_parse JSON_stringify net sched w
  = (Fulfilled JUndefined,
     set_mainElement (Some (children ++ map (mkElement "recipe-card") C))
       (initializeServiceWorker w)).
Proof using JSON_parse_empty.
  intros Hitem Hs Hmain.
  destruct (initializeServiceWorker_fields w) as (_ & _ & _ & Hm).
  rewrite (init_cached net sched w s (JArray C)) by done.
  unfold addRecipesToDocument. cbn [truthy negb].
  by rewrite (forEach_append_card C children) by by rewrite Hm.
Qed.

(** X15. A cache that holds JSON other than an array: [getRecipes] resolves
    with whatever the stored text deserializes to.  When that value is falsy
    ([null], [false], [0], the empty string) [init] ends normally and renders
    nothing; when it is truthy and no array (an object, a number, a string)
    [init] rejects with a [TypeError].  In both cases nothing is fetched,
    stored or rendered. *)
Theorem init_cached_not_an_array (sched : list string) (w : World) (s : string)
    (v : JSValue) :
  getItem "recipes" w = Some s ->
  JSON_parse s = Some v ->
  (forall items, v <> JArray items) ->
  getRecipes JSON_parse JSON_stringify net sched w = (Fulfilled v, w)
  /\ snd (init JSON_parse JSON_stringify net sched w) = initializeServiceWorker w
  /\ if truthy v
     then exists message,
            fst (init JSON_parse JSON_stringify net sched w)
            = Rejected (JError "TypeError" message)
     else fst (init JSON_parse JSON_stringify net sched w) = Fulfilled JUndefined.
Proof using JSON_parse_empty.
  intros Hitem Hs Hno.
  split; [by apply (getRecipes_cached JSON_parse JSON_stringify JSON_parse_empty
                      net sched w s v)|].
  rewrite (init_cached net sched w s v) by done.
  unfold addRecipesToDocument.
  destruct (truthy v) eqn:Htruthy; cbn [negb]; [|done].
  destruct v as [| | | | |items| |]; try (split; [done | by eexists]).
  by destruct (Hno items).
Qed.

(** X16. Two visits show the same list: after a first visit on a cache miss
    with all six requests succeeding, whose stored text parses back to the
    collected records, a later visit that finds that storage and a [<main>]
    appends one card per record in the completion order of the first visit,
    whatever the network does then, and issues no request. *)
Theorem init_second_visit (r : string -> JSValue) (sched : list string)
    (w : World) (net' : Network) (sched' : list string) (w2 : World)
    (children : list Element) :
  truthy_item (getItem "recipes" w) = false ->
  Permutation sched RECIPE_URLS ->
  (forall url, In url RECIPE_URLS -> net url = JsonResolved (r url)) ->
  JSON_parse (JSON_stringify (JArray (map r sched))) = Some (JArray (map r sched)) ->
  localStorage w2 = localStorage (snd (init JSON_parse JSON_stringify net sched w)) ->
  mainElement w2 = Some children ->
  init JSON_parse JSON_stringify net' sched' w2
  = (Fulfilled JUndefined,
     set_mainElement
       (Some (children ++ map (fun url => mkElement "recipe-card" (r url)) sched))
       (initializeServiceWorker w2))
  /\ fetched (snd (init JSON_parse JSON_stringify net' sched' w2)) = fetched w2.
Proof using JSON_parse_empty.
  intros Hmiss Hperm Hnet Hround Hstore Hmain.
  assert (Hitem : getItem "recipes" w2
                  = Some (JSON_stringify (JArray (map r sched)))).
  { unfold getItem. rewrite Hstore. rewrite (init_miss_success r) by done.
    pose proof (addRecipesToDocument_frame (JArray (map r sched))
      (saveRecipesToStorage JSON_stringify (map r sched)
         (set_fetched (fetched (initializeServiceWorker w) ++ RECIPE_URLS)
            (initializeServiceWorker w)))) as (Hs & _).
    destruct (addRecipesToDocument _ _) as [[|e] w']; cbn [async_result snd] in *;
      rewrite Hs; apply getItem_setItem. }
  destruct (initializeServiceWorker_fields w2) as (_ & Hf & _ & Hm).
  assert (Hinit : init JSON_parse JSON_stringify net' sched' w2
    = (Fulfilled JUndefined,
       set_mainElement
         (Some (children ++ map (mkElement "recipe-card") (map r sched)))
         (initializeServiceWorker w2))).
  { rewrite (init_cached net' sched' w2 _ (JArray (map r sched)) Hitem Hround).
    unfold addRecipesToDocument. cbn [truthy negb].
    by rewrite (forEach_append_card (map r sched) children) by by rewrite Hm. }
  rewrite Hinit, map_map. split; [done|]. cbn. exact Hf.
Qed.

End MoreInit.

(** ** More about the service worker *)

(** X17. Registration: in a browser with service workers and no other
    [load] listener, the [load] event after [initializeServiceWorker]
    registers [./sw.js] once and writes at most one console line: the error
    when the registration is rejected, otherwise the first that applies of
    installing, installed (waiting) and active, and nothing when the
    registration has none of the three.  The listener stays installed. *)
Theorem serviceWorker_registration (reg : Registration) (w : World) :
  serviceWorker_in_navigator w = true ->
  load_listeners w = [] ->
  dispatch_load reg (initializeServiceWorker w)
  = set_console
      (console w ++
       match reg with
       | RegistrationRejected e => [ConsoleErrorRegistration e]
       | RegistrationResolved true _ _ => [ConsoleLog "Service worker installing"]
       | RegistrationResolved false true _ => [ConsoleLog "Service worker installed"]
       | RegistrationResolved false false true => [ConsoleLog "Service worker active"]
       | RegistrationResolved false false false => []
       end)
      (set_registered (registered w ++ ["./sw.js"])
         (set_load_listeners [RegisterServiceWorker] w)).
Proof.
  intros Hsw Hnone. unfold initializeServiceWorker, dispatch_load.
  rewrite Hsw, Hnone. cbn [negb app load_listeners set_load_listeners fold_left].
  destruct w. cbn in *. subst.
  destruct reg as [e|[] [] []]; cbn; by rewrite ?app_nil_r.
Qed.

(** ** Sample runs *)

Lemma shuffled_Permutation : Permutation shuffled RECIPE_URLS.
Proof. apply (bool_decide_unpack _). vm_compute. reflexivity. Defined.

(** A cached two-recipe collection is returned as it is. *)
Lemma getRecipes_cache_hit_witness :
  getRecipes RefJSON.parse RefJSON.stringify third_down shuffled
    (page_with_cache two_dishes_text)
  = (Fulfilled (JArray two_dishes), page_with_cache two_dishes_text)
  /\ fetched (snd (getRecipes RefJSON.parse RefJSON.stringify third_down shuffled
                     (page_with_cache two_dishes_text)))
     = fetched (page_with_cache two_dishes_text).
Proof.
  apply (getRecipes_cache_hit RefJSON.parse RefJSON.stringify eq_refl
           third_down shuffled (page_with_cache two_dishes_text)
           two_dishes_text two_dishes).
  - vm_compute. reflexivity.
  - vm_compute. reflexivity.
Defined.

(** With the third source down the load rejects and stores nothing. *)
Lemma getRecipes_all_or_nothing_witness :
  exists e,
    first_error third_down shuffled = Some e
    /\ fst (getRecipes RefJSON.parse RefJSON.stringify third_down shuffled fresh_page)
       = Rejected e
    /\ getItem "recipes"
         (snd (getRecipes RefJSON.parse RefJSON.stringify third_down shuffled fresh_page))
       = None
    /\ forall pre post, shuffled = pre ++ post ->
         localStorage
           (snd (getRecipes RefJSON.parse RefJSON.stringify third_down pre fresh_page))
         = localStorage fresh_page.
Proof.
  apply (getRecipes_all_or_nothing RefJSON.parse RefJSON.stringify third_down
           shuffled fresh_page third_url).
  - vm_compute. reflexivity.
  - apply (bool_decide_unpack _). vm_compute. reflexivity.
  - intros url Hin. apply (Permutation_in _ shuffled_Permutation Hin).
  - vm_compute. tauto.
  - vm_compute. reflexivity.
Defined.

(** Six dishes finishing as 3, 1, 6, 2, 5, 4 are stored in that order and
    served from the store afterwards. *)
Lemma getRecipes_miss_populates_witness :
  let C := map dish_at shuffled in
  let w' := snd (getRecipes RefJSON.parse RefJSON.stringify six_dishes shuffled fresh_page) in
  fst (getRecipes RefJSON.parse RefJSON.stringify six_dishes shuffled fresh_page)
  = Fulfilled (JArray C)
  /\ Permutation C (map dish_at RECIPE_URLS)
  /\ (exists s, getItem "recipes" w' = Some s /\ RefJSON.parse s = Some (JArray C))
  /\ fetched w' = fetched fresh_page ++ RECIPE_URLS
  /\ forall net' sched',
       getRecipes RefJSON.parse RefJSON.stringify net' sched' w' = (Fulfilled (JArray C), w')
       /\ fetched (snd (getRecipes RefJSON.parse RefJSON.stringify net' sched' w'))
          = fetched w'.
Proof.
  apply (getRecipes_miss_populates RefJSON.parse RefJSON.stringify six_dishes eq_refl
           dish_at shuffled fresh_page).
  - vm_compute. reflexivity.
  - exact shuffled_Permutation.
  - intros url _. reflexivity.
  - vm_compute. reflexivity.
Defined.

(** The claim C4 as the specification words it fails on the empty string:
    it is stored under ["recipes"], [JSON.parse] refuses it, and [getRecipes]
    passes the six URLs to [fetch] and resolves with six recipes. *)
Lemma getRecipes_empty_string_fetches :
  getItem "recipes" (page_with_cache EmptyString) = Some EmptyString
  /\ RefJSON.parse EmptyString = None
  /\ fst (getRecipes RefJSON.parse RefJSON.stringify six_dishes RECIPE_URLS
            (page_with_cache EmptyString))
     = Fulfilled (JArray (map dish_at RECIPE_URLS))
  /\ fst (getRecipes RefJSON.parse RefJSON.stringify six_dishes RECIPE_URLS
            (page_with_cache EmptyString))
     <> Fulfilled (JArray [])
  /\ fetched (snd (getRecipes RefJSON.parse RefJSON.stringify six_dishes RECIPE_URLS
                     (page_with_cache EmptyString)))
     = RECIPE_URLS.
Proof.
  split; [|split; [|split; [|split]]]; try (vm_compute; reflexivity).
  vm_compute. discriminate.
Qed.

(** A stored text that is no JSON gives the empty collection. *)
Lemma getRecipes_corrupt_cache_witness :
  getRecipes RefJSON.parse RefJSON.stringify six_dishes shuffled (page_with_cache "{oops")
  = (Fulfilled (JArray []), page_with_cache "{oops")
  /\ fetched (snd (getRecipes RefJSON.parse RefJSON.stringify six_dishes shuffled
                     (page_with_cache "{oops")))
     = fetched (page_with_cache "{oops").
Proof.
  apply (getRecipes_corrupt_cache RefJSON.parse RefJSON.stringify
           six_dishes shuffled (page_with_cache "{oops") "{oops").
  - vm_compute. reflexivity.
  - discriminate.
  - vm_compute. reflexivity.
Defined.

(** With two sources failing, the third first, [init] still ends normally,
    on an empty [<main>]. *)
Lemma init_contains_failure_witness :
  fst (init RefJSON.parse RefJSON.stringify two_down shuffled fresh_page)
  = Fulfilled JUndefined
  /\ mainElement (snd (init RefJSON.parse RefJSON.stringify two_down shuffled fresh_page))
     = mainElement fresh_page
  /\ (exists later,
        errors_of two_down shuffled = failed_to_fetch :: later
        /\ console (snd (init RefJSON.parse RefJSON.stringify two_down shuffled
                           fresh_page))
           = console fresh_page
             ++ ConsoleError failed_to_fetch :: ConsoleError failed_to_fetch
                :: map ConsoleError later)
  /\ forall w1,
       init_resume (Rejected failed_to_fetch) w1
       = Some (Fulfilled JUndefined, console_error failed_to_fetch w1)
       /\ addRecipesToDocument JUndefined (console_error failed_to_fetch w1)
          = (Normal, console_error failed_to_fetch w1).
Proof.
  apply (init_contains_failure RefJSON.parse RefJSON.stringify two_down
           shuffled fresh_page failed_to_fetch).
  vm_compute. reflexivity.
Defined.

(** The console of that run: the first error, from [getRecipes] and from
    [init], then the second. *)
Lemma init_two_failures_console :
  console (snd (init RefJSON.parse RefJSON.stringify two_down shuffled fresh_page))
  = [ConsoleError failed_to_fetch; ConsoleError failed_to_fetch;
     ConsoleError unexpected_token].
Proof. vm_compute. reflexivity. Qed.

(** Three recipes give three cards, in order. *)
Lemma addRecipesToDocument_appends_witness :
  let items := [dish "1"; dish "2"; dish "3"] in
  let new := map (mkElement "recipe-card") items in
  addRecipesToDocument (JArray items) fresh_page
  = (Normal, set_mainElement (Some ([] ++ new)) fresh_page)
  /\ length new = length items
  /\ forall i recipe, items !! i = Some recipe ->
       ([] ++ new) !! (length (@nil Element) + i)
       = Some (mkElement "recipe-card" recipe)
       /\ data <$> new !! i = Some recipe.
Proof.
  apply (addRecipesToDocument_appends [dish "1"; dish "2"; dish "3"] [] fresh_page).
  reflexivity.
Defined.

(** A browser without service workers: nothing is installed. *)
Lemma initializeServiceWorker_guard_witness :
  initializeServiceWorker legacy_page = legacy_page
  /\ load_listeners (initializeServiceWorker legacy_page) = load_listeners legacy_page
  /\ registered (initializeServiceWorker legacy_page) = registered legacy_page
  /\ (load_listeners legacy_page = [] ->
      forall reg, dispatch_load reg (initializeServiceWorker legacy_page) = legacy_page).
Proof.
  apply (proj1 (initializeServiceWorker_guard legacy_page)). reflexivity.
Defined.

(** The empty string under ["recipes"] sends the page to the network. *)
Lemma getRecipes_empty_string_is_miss_witness :
  getRecipes RefJSON.parse RefJSON.stringify six_dishes shuffled
    (page_with_cache EmptyString)
  = load_from_network RefJSON.stringify six_dishes shuffled (page_with_cache EmptyString)
  /\ fetched (snd (getRecipes RefJSON.parse RefJSON.stringify six_dishes shuffled
                     (page_with_cache EmptyString)))
     = fetched (page_with_cache EmptyString) ++ RECIPE_URLS.
Proof.
  apply (getRecipes_empty_string_is_miss RefJSON.parse RefJSON.stringify
           six_dishes shuffled (page_with_cache EmptyString)).
  vm_compute. reflexivity.
Defined.

(** Two dishes saved are two dishes read. *)
Lemma saveRecipesToStorage_getRecipes_witness :
  getRecipes RefJSON.parse RefJSON.stringify third_down shuffled
    (saveRecipesToStorage RefJSON.stringify two_dishes fresh_page)
  = (Fulfilled (JArray two_dishes),
     saveRecipesToStorage RefJSON.stringify two_dishes fresh_page)
  /\ fetched (snd (getRecipes RefJSON.parse RefJSON.stringify third_down shuffled
                     (saveRecipesToStorage RefJSON.stringify two_dishes fresh_page)))
     = fetched (saveRecipesToStorage RefJSON.stringify two_dishes fresh_page).
Proof.
  apply (saveRecipesToStorage_getRecipes RefJSON.parse RefJSON.stringify eq_refl
           third_down shuffled fresh_page two_dishes).
  vm_compute. reflexivity.
Defined.

Lemma shuffled_NoDup : NoDup shuffled.
Proof. apply (bool_decide_unpack _). vm_compute. reflexivity. Defined.

Lemma shuffled_incl : incl shuffled RECIPE_URLS.
Proof. intros url Hin. apply (Permutation_in _ shuffled_Permutation Hin). Defined.

(** With the third source down, the outcome of the miss is the rejection. *)
Lemma getRecipes_miss_outcome_witness :
  getRecipes RefJSON.parse RefJSON.stringify third_down shuffled fresh_page
  = let w1 := set_console
                (console fresh_page ++ map ConsoleError (errors_of third_down shuffled))
                (set_fetched (fetched fresh_page ++ RECIPE_URLS) fresh_page) in
    match first_error third_down shuffled with
    | Some e => (Rejected e, w1)
    | None =>
        if (length RECIPE_URLS <=? length shuffled)%nat
        then (Fulfilled (JArray (map (record_of third_down) shuffled)),
              saveRecipesToStorage RefJSON.stringify
                (map (record_of third_down) shuffled) w1)
        else (Pending, w1)
    end.
Proof.
  apply (getRecipes_miss_outcome RefJSON.parse RefJSON.stringify third_down
           shuffled fresh_page).
  - vm_compute. reflexivity.
  - exact shuffled_NoDup.
  - exact shuffled_incl.
Defined.

(** Six dishes resolved: then all six sources had answered. *)
Lemma getRecipes_resolves_only_complete_witness :
  Permutation shuffled RECIPE_URLS
  /\ Forall (fun url => succeeds six_dishes url = true) RECIPE_URLS
  /\ JArray (map dish_at shuffled) = JArray (map (record_of six_dishes) shuffled)
  /\ Permutation (map (record_of six_dishes) shuffled)
       (map (record_of six_dishes) RECIPE_URLS).
Proof.
  apply (getRecipes_resolves_only_complete RefJSON.parse RefJSON.stringify
           six_dishes shuffled fresh_page (JArray (map dish_at shuffled))).
  - vm_compute. reflexivity.
  - exact shuffled_NoDup.
  - exact shuffled_incl.
  - vm_compute. reflexivity.
Defined.

(** Four of six dishes arrived: the page waits. *)
Lemma init_waits_for_every_request_witness :
  fst (getRecipes RefJSON.parse RefJSON.stringify six_dishes stalled fresh_page)
  = Pending
  /\ fst (init RefJSON.parse RefJSON.stringify six_dishes stalled fresh_page) = Pending
  /\ mainElement (snd (init RefJSON.parse RefJSON.stringify six_dishes stalled fresh_page))
     = mainElement fresh_page
  /\ localStorage (snd (init RefJSON.parse RefJSON.stringify six_dishes stalled fresh_page))
     = localStorage fresh_page
  /\ console (snd (init RefJSON.parse RefJSON.stringify six_dishes stalled fresh_page))
     = console fresh_page
  /\ fetched (snd (init RefJSON.parse RefJSON.stringify six_dishes stalled fresh_page))
     = fetched fresh_page ++ RECIPE_URLS.
Proof.
  apply (init_waits_for_every_request RefJSON.parse RefJSON.stringify six_dishes
           stalled fresh_page).
  - vm_compute. reflexivity.
  - apply List.Forall_forall. intros url _. reflexivity.
  - vm_compute. lia.
Defined.

(** With two sources failing, the error of the first is logged twice, then
    the error of the second. *)
Lemma init_logs_first_error_twice_witness :
  exists e later,
    first_error two_down shuffled = Some e
    /\ errors_of two_down shuffled = e :: later
    /\ console (snd (getRecipes RefJSON.parse RefJSON.stringify two_down shuffled
                       fresh_page))
       = console fresh_page ++ ConsoleError e :: map ConsoleError later
    /\ console (snd (init RefJSON.parse RefJSON.stringify two_down shuffled fresh_page))
       = console fresh_page ++ ConsoleError e :: ConsoleError e :: map ConsoleError later.
Proof.
  apply (init_logs_first_error_twice RefJSON.parse RefJSON.stringify two_down
           shuffled fresh_page fifth_url).
  - vm_compute. reflexivity.
  - exact shuffled_NoDup.
  - exact shuffled_incl.
  - vm_compute. tauto.
  - vm_compute. reflexivity.
Defined.

(** Rejected after four completions, rejected after six. *)
Lemma getRecipes_rejection_is_final_witness :
  fst (getRecipes RefJSON.parse RefJSON.stringify third_down
         (stalled ++ drop 4 shuffled) fresh_page)
  = Rejected failed_to_fetch.
Proof.
  apply (getRecipes_rejection_is_final RefJSON.parse RefJSON.stringify third_down
           stalled (drop 4 shuffled) fresh_page failed_to_fetch).
  vm_compute. reflexivity.
Defined.

(** The page's own setting survives a load. *)
Lemma getRecipes_other_keys_witness :
  getItem "theme"
    (snd (getRecipes RefJSON.parse RefJSON.stringify six_dishes shuffled page_with_theme))
  = getItem "theme" page_with_theme
  /\ (is_Some (getItem "recipes" page_with_theme) ->
      is_Some (getItem "recipes"
                 (snd (getRecipes RefJSON.parse RefJSON.stringify six_dishes shuffled
                         page_with_theme)))).
Proof.
  apply (getRecipes_other_keys RefJSON.parse RefJSON.stringify six_dishes shuffled
           page_with_theme "theme").
  discriminate.
Defined.

(** An empty entry is replaced by six dishes. *)
Lemma getRecipes_replaces_empty_string_witness :
  fst (getRecipes RefJSON.parse RefJSON.stringify six_dishes shuffled
         (page_with_cache EmptyString))
  = Fulfilled (JArray (map dish_at shuffled))
  /\ getItem "recipes"
       (snd (getRecipes RefJSON.parse RefJSON.stringify six_dishes shuffled
               (page_with_cache EmptyString)))
     = Some (RefJSON.stringify (JArray (map dish_at shuffled))).
Proof.
  apply (getRecipes_replaces_empty_string RefJSON.parse RefJSON.stringify six_dishes
           dish_at shuffled (page_with_cache EmptyString)).
  - vm_compute. reflexivity.
  - exact shuffled_Permutation.
  - intros url _. reflexivity.
Defined.

(** Two dishes rendered twice are four cards. *)
Lemma addRecipesToDocument_twice_witness :
  fst (addRecipesToDocument (JArray two_dishes) fresh_page) = Normal
  /\ fst (addRecipesToDocument (JArray two_dishes)
            (snd (addRecipesToDocument (JArray two_dishes) fresh_page))) = Normal
  /\ mainElement
       (snd (addRecipesToDocument (JArray two_dishes)
               (snd (addRecipesToDocument (JArray two_dishes) fresh_page))))
     = Some ([] ++ map (mkElement "recipe-card") two_dishes
                ++ map (mkElement "recipe-card") two_dishes)
  /\ addRecipesToDocument (JArray two_dishes)
       (snd (addRecipesToDocument (JArray two_dishes) fresh_page))
     = addRecipesToDocument (JArray (two_dishes ++ two_dishes)) fresh_page.
Proof.
  apply (addRecipesToDocument_twice two_dishes two_dishes [] fresh_page).
  reflexivity.
Defined.

(** A first visit with six dishes finishing as 3, 1, 6, 2, 5, 4. *)
Lemma init_first_visit_witness :
  fst (init RefJSON.parse RefJSON.stringify six_dishes shuffled fresh_page)
  = Fulfilled JUndefined
  /\ mainElement (snd (init RefJSON.parse RefJSON.stringify six_dishes shuffled fresh_page))
     = Some ([] ++ map (fun url => mkElement "recipe-card" (dish_at url)) shuffled)
  /\ getItem "recipes"
       (snd (init RefJSON.parse RefJSON.stringify six_dishes shuffled fresh_page))
     = Some (RefJSON.stringify (JArray (map dish_at shuffled)))
  /\ fetched (snd (init RefJSON.parse RefJSON.stringify six_dishes shuffled fresh_page))
     = fetched fresh_page ++ RECIPE_URLS
  /\ console (snd (init RefJSON.parse RefJSON.stringify six_dishes shuffled fresh_page))
     = console fresh_page.
Proof.
  apply (init_first_visit RefJSON.parse RefJSON.stringify six_dishes dish_at
           shuffled fresh_page []).
  - vm_compute. reflexivity.
  - exact shuffled_Permutation.
  - intros url _. reflexivity.
  - reflexivity.
Defined.

(** The same visit on a document without [<main>]. *)
Lemma init_without_main_witness :
  (exists message,
     fst (init RefJSON.parse RefJSON.stringify six_dishes shuffled no_main_page)
     = Rejected (JError "TypeError" message))
  /\ getItem "recipes"
       (snd (init RefJSON.parse RefJSON.stringify six_dishes shuffled no_main_page))
     = Some (RefJSON.stringify (JArray (map dish_at shuffled)))
  /\ mainElement (snd (init RefJSON.parse RefJSON.stringify six_dishes shuffled
                         no_main_page))
     = None.
Proof.
  apply (init_without_main RefJSON.parse RefJSON.stringify six_dishes dish_at
           shuffled no_main_page).
  - vm_compute. reflexivity.
  - exact shuffled_Permutation.
  - intros url _. reflexivity.
  - reflexivity.
Defined.

(** A visit that finds two cached dishes. *)
Lemma init_cache_hit_witness :
  init RefJSON.parse RefJSON.stringify third_down shuffled
    (page_with_cache two_dishes_text)
  = (Fulfilled JUndefined,
     set_mainElement (Some ([] ++ map (mkElement "recipe-card") two_dishes))
       (initializeServiceWorker (page_with_cache two_dishes_text))).
Proof.
  apply (init_cache_hit RefJSON.parse RefJSON.stringify third_down eq_refl shuffled
           (page_with_cache two_dishes_text) two_dishes_text two_dishes []).
  - vm_compute. reflexivity.
  - vm_compute. reflexivity.
  - reflexivity.
Defined.

(** A cache that holds an empty object breaks the page. *)
Lemma init_cached_not_an_array_witness :
  getRecipes RefJSON.parse RefJSON.stringify six_dishes shuffled (page_with_cache "{}")
  = (Fulfilled (JObject []), page_with_cache "{}")
  /\ snd (init RefJSON.parse RefJSON.stringify six_dishes shuffled (page_with_cache "{}"))
     = initializeServiceWorker (page_with_cache "{}")
  /\ if truthy (JObject [])
     then exists message,
            fst (init RefJSON.parse RefJSON.stringify six_dishes shuffled
                   (page_with_cache "{}"))
            = Rejected (JError "TypeError" message)
     else fst (init RefJSON.parse RefJSON.stringify six_dishes shuffled
                 (page_with_cache "{}"))
          = Fulfilled JUndefined.
Proof.
  apply (init_cached_not_an_array RefJSON.parse RefJSON.stringify six_dishes eq_refl
           shuffled (page_with_cache "{}") "{}" (JObject [])).
  - vm_compute. reflexivity.
  - vm_compute. reflexivity.
  - intros items. discriminate.
Defined.

(** A second visit, with the network down, on the storage the first left. *)
Lemma init_second_visit_witness :
  init RefJSON.parse RefJSON.stringify third_down stalled
    (set_mainElement (Some [])
       (snd (init RefJSON.parse RefJSON.stringify six_dishes shuffled fresh_page)))
  = (Fulfilled JUndefined,
     set_mainElement
       (Some ([] ++ map (fun url => mkElement "recipe-card" (dish_at url)) shuffled))
       (initializeServiceWorker
          (set_mainElement (Some [])
             (snd (init RefJSON.parse RefJSON.stringify six_dishes shuffled
                     fresh_page)))))
  /\ fetched
       (snd (init RefJSON.parse RefJSON.stringify third_down stalled
               (set_mainElement (Some [])
                  (snd (init RefJSON.parse RefJSON.stringify six_dishes shuffled
                          fresh_page)))))
     = fetched
         (set_mainElement (Some [])
            (snd (init RefJSON.parse RefJSON.stringify six_dishes shuffled fresh_page))).
Proof.
  apply (init_second_visit RefJSON.parse RefJSON.stringify six_dishes eq_refl dish_at
           shuffled fresh_page third_down stalled
           (set_mainElement (Some [])
              (snd (init RefJSON.parse RefJSON.stringify six_dishes shuffled
                      fresh_page)))
           []).
  - vm_compute. reflexivity.
  - exact shuffled_Permutation.
  - intros url _. reflexivity.
  - vm_compute. reflexivity.
  - vm_compute. reflexivity.
  - vm_compute. reflexivity.
Defined.

(** A worker that is installed and waiting is logged as installed. *)
Lemma serviceWorker_registration_witness :
  dispatch_load (RegistrationResolved false true true)
    (initializeServiceWorker fresh_page)
  = set_console (console fresh_page ++ [ConsoleLog "Service worker installed"])
      (set_registered (registered fresh_page ++ ["./sw.js"])
         (set_load_listeners [RegisterServiceWorker] fresh_page)).
Proof.
  apply (serviceWorker_registration (RegistrationResolved false true true) fresh_page);
    reflexivity.
Defined.
